(** * immich-utils: the DVD backup pipeline of [immich_dvd_backup_local.py]

    A shallow embedding of the script's components and the properties its
    specification states about them:

    - the bin packer (the "Organize assets into DVDs" loop of [main]),
    - the materializer ([copy_asset]) and the worker pool that runs it,
    - the archive builder ([create_iso]) and the cleanup that follows it,
    - the progress tracker ([BackupState]) with its JSON state file,
    - the orchestration in [main].

    Python values are modelled as the script uses them: [int] is [Z]
    (unbounded), [str] is [string] (a sequence of code points below 256),
    [None] is the [None] of an option type, a raised exception is an error
    value threaded through the caller. *)

From Stdlib Require Import ZArith List String Ascii Bool Lia.
From Stdlib Require Import Decimal DecimalString DecimalFacts DecimalPos DecimalZ.
From stdpp Require Import base option list strings gmap.

Import ListNotations.
Local Open Scope string_scope.
Local Open Scope list_scope.
Local Open Scope Z_scope.

(* ===================================================================== *)
(** * Part I: the model *)
(* ===================================================================== *)

(** ** Asset records

    One row of the inventory query of [get_assets_from_db]: the keys of the
    dict that [json.loads] builds for it. [fileSizeInByte] may be SQL NULL,
    that is Python [None]. *)

Record asset := {
  id : string;
  originalPath : string;
  originalFileName : string;
  fileCreatedAt : string;
  fileSizeInByte : option Z
}.

(** ** Bin packer *)

Module Packer.

(** One entry of [all_dvds]: the dict with keys ['num'], ['assets'],
    ['size'], ['start'] and ['end']. *)
Record dvd := {
  d_num : Z;
  d_assets : list asset;
  d_size : Z;
  d_start : string;
  d_end : string
}.

(** [s.split('T')[0]]: the text before the first ['T'], all of [s] when it
    has none. *)
Fixpoint split_T_0 (s : string) : string :=
  match s with
  | EmptyString => EmptyString
  | String c rest =>
      if Ascii.eqb c "T"%char then EmptyString else String c (split_T_0 rest)
  end.

(** [asset['fileSizeInByte'] or 0]: [None] and [0] are falsy. *)
Definition size_or_0 (a : asset) : Z :=
  match fileSizeInByte a with
  | None => 0
  | Some n => if n =? 0 then 0 else n
  end.

(** [current_dvd_assets[0]] and [current_dvd_assets[-1]]: both raise
    [IndexError] on the empty list, here [None]. *)
Definition first_asset (current_dvd_assets : list asset) : option asset :=
  head current_dvd_assets.

Definition last_asset (current_dvd_assets : list asset) : option asset :=
  last current_dvd_assets.

(** The dict appended to [all_dvds] (lines 183-191 and 200-208). *)
Definition seal (dvd_num : Z) (current_dvd_assets : list asset) (dvd_size : Z)
  : option dvd :=
  a0 ← first_asset current_dvd_assets;
  a1 ← last_asset current_dvd_assets;
  Some {| d_num := dvd_num;
          d_assets := current_dvd_assets;
          d_size := dvd_size;
          d_start := split_T_0 (fileCreatedAt a0);
          d_end := split_T_0 (fileCreatedAt a1) |}.

(** The loop's variables. *)
Record acc := {
  all_dvds : list dvd;
  current_dvd_assets : list asset;
  dvd_size : Z;
  dvd_num : Z
}.

Definition acc0 : acc :=
  {| all_dvds := []; current_dvd_assets := []; dvd_size := 0; dvd_num := 1 |}.

(** Python's truth value of a list. *)
Definition truthy {A} (l : list A) : bool :=
  match l with [] => false | _ => true end.

(** One iteration of [for asset in assets] (lines 180-197). *)
Definition pack_step (capacity : Z) (st : acc) (a : asset) : option acc :=
  let size := size_or_0 a in
  st' ← (if (dvd_size st + size >? capacity) && truthy (current_dvd_assets st)
         then
           d ← seal (dvd_num st) (current_dvd_assets st) (dvd_size st);
           Some {| all_dvds := all_dvds st ++ [d];
                   current_dvd_assets := [];
                   dvd_size := 0;
                   dvd_num := dvd_num st + 1 |}
         else Some st);
  Some {| all_dvds := all_dvds st';
          current_dvd_assets := current_dvd_assets st' ++ [a];
          dvd_size := dvd_size st' + size;
          dvd_num := dvd_num st' |}.

Fixpoint pack_loop (capacity : Z) (st : acc) (assets : list asset)
  : option acc :=
  match assets with
  | [] => Some st
  | a :: rest => st' ← pack_step capacity st a; pack_loop capacity st' rest
  end.

(** Lines 173-208: the loop, then the last accumulator when it is not
    empty. [None] stands for an [IndexError] out of [seal]. *)
Definition organize (assets : list asset) (capacity : Z) : option (list dvd) :=
  st ← pack_loop capacity acc0 assets;
  if truthy (current_dvd_assets st)
  then d ← seal (dvd_num st) (current_dvd_assets st) (dvd_size st);
       Some (all_dvds st ++ [d])
  else Some (all_dvds st).

(** The cumulative byte size of a member list, a null size counting as 0. *)
Definition total_size (l : list asset) : Z :=
  foldr (fun a s => size_or_0 a + s) 0 l.

(** What the loop has covered so far: the sealed chunks' members, then
    the members of the open chunk. *)
Definition flat (st : acc) : list asset :=
  concat (map d_assets (all_dvds st)) ++ current_dvd_assets st.

(** A sealed chunk is well formed for [capacity]: it has a member, its
    ['size'] is its members' cumulative size, and it is within capacity
    unless it is a singleton. *)
Definition chunk_ok (capacity : Z) (d : dvd) : Prop :=
  d_assets d <> [] /\
  d_size d = total_size (d_assets d) /\
  (d_size d <= capacity \/ length (d_assets d) = 1%nat).

(** The loop invariant. *)
Definition acc_ok (capacity : Z) (st : acc) : Prop :=
  Forall (chunk_ok capacity) (all_dvds st) /\
  dvd_size st = total_size (current_dvd_assets st) /\
  (dvd_size st <= capacity \/ (length (current_dvd_assets st) <= 1)%nat).

(** An asset of a given size, for the examples of the specification. *)
Definition sized (n : Z) : asset :=
  {| id := "id-" +:+ NilZero.string_of_int (Z.to_int n);
     originalPath := "/usr/src/app/upload/library/a.jpg";
     originalFileName := "a.jpg";
     fileCreatedAt := "2021-05-04T12:00:00.000Z";
     fileSizeInByte := Some n |}.

(** The ordinals and the member sizes of the chunks, for reading a
    result. *)
Definition shape (r : option (list dvd)) : option (list (Z * list Z)) :=
  option_map (map (fun d => (d_num d, map size_or_0 (d_assets d)))) r.

End Packer.

(** ** Python string and path operations

    The [str] methods and [os.path] functions (POSIX flavour) that the
    script calls. Indices are [Z], as [rfind] answers [-1]. *)

Module Py.

Definition len (s : string) : Z := Z.of_nat (String.length s).

(** [s[:n]] and [s[n:]] for [0 <= n]. *)
Fixpoint take (n : nat) (s : string) : string :=
  match n, s with
  | S k, String c rest => String c (take k rest)
  | _, _ => EmptyString
  end.

Fixpoint drop (n : nat) (s : string) : string :=
  match n, s with
  | S k, String _ rest => drop k rest
  | _, _ => s
  end.

(** [s[i:j]] for [0 <= i]. *)
Definition slice (s : string) (i j : Z) : string :=
  take (Z.to_nat (j - i)) (drop (Z.to_nat i) s).

(** [s.startswith(p)]. *)
Definition startswith (s p : string) : bool := String.prefix p s.

(** [s.endswith(suffix)]. *)
Definition endswith (s suffix : string) : bool :=
  (String.length suffix <=? String.length s)%nat &&
  String.eqb (drop (String.length s - String.length suffix) s) suffix.

(** [s.replace(old, new, 1)]: the leftmost occurrence only. *)
Fixpoint replace1 (old new s : string) : string :=
  if String.prefix old s then new +:+ drop (String.length old) s
  else match s with
       | EmptyString => EmptyString
       | String c rest => String c (replace1 old new rest)
       end.

(** [str.lower] on one code point below 256: the ASCII capitals, and the
    Latin-1 capitals U+00C0..U+00DE without the multiplication sign. *)
Definition lower_char (c : ascii) : ascii :=
  let n := N_of_ascii c in
  if ((65 <=? n) && (n <=? 90) ||
      (192 <=? n) && (n <=? 222) && negb (n =? 215))%N
  then ascii_of_N (n + 32)
  else c.

Fixpoint lower (s : string) : string :=
  match s with
  | EmptyString => EmptyString
  | String c rest => String (lower_char c) (lower rest)
  end.

(** [s.rfind(c)] for a one-character [c]: the highest index, or [-1]. *)
Fixpoint rfind_from (c : ascii) (s : string) (i found : Z) : Z :=
  match s with
  | EmptyString => found
  | String x rest =>
      rfind_from c rest (i + 1) (if Ascii.eqb x c then i else found)
  end.

Definition rfind (c : ascii) (s : string) : Z := rfind_from c s 0 (-1).

(** The [while filenameIndex < dotIndex] loop of [genericpath._splitext]:
    [Some] is its [return] from inside, [None] its falling through. *)
Fixpoint splitext_loop (fuel : nat) (p : string) (filenameIndex dotIndex : Z)
  : option (string * string) :=
  match fuel with
  | O => None
  | S k =>
      if filenameIndex <? dotIndex then
        if negb (String.eqb (slice p filenameIndex (filenameIndex + 1)) ".")
        then Some (take (Z.to_nat dotIndex) p, drop (Z.to_nat dotIndex) p)
        else splitext_loop k p (filenameIndex + 1) dotIndex
      else None
  end.

(** [os.path.splitext(p)]. *)
Definition splitext (p : string) : string * string :=
  let sepIndex := rfind "/" p in
  let dotIndex := rfind "." p in
  let whole := (p, EmptyString) in
  if dotIndex >? sepIndex then
    let filenameIndex := sepIndex + 1 in
    match splitext_loop (Z.to_nat (dotIndex - filenameIndex)) p
                        filenameIndex dotIndex with
    | Some r => r
    | None => whole
    end
  else whole.

(** [os.path.join(a, b)]. *)
Definition join (a b : string) : string :=
  if startswith b "/" then b
  else if String.eqb a "" || endswith a "/" then a +:+ b
  else a +:+ "/" +:+ b.

(** [os.path.basename(p)]: what follows the last slash. *)
Definition basename (p : string) : string :=
  drop (Z.to_nat (rfind "/" p + 1)) p.

(** [head.rstrip('/')]. *)
Fixpoint rstrip_slash (s : string) : string :=
  match s with
  | EmptyString => EmptyString
  | String c rest =>
      match rstrip_slash rest with
      | EmptyString => if Ascii.eqb c "/" then EmptyString else String c EmptyString
      | r => String c r
      end
  end.

(** [os.path.dirname(p)]: up to the last slash, trailing slashes removed
    unless it is slashes only. *)
Definition dirname (p : string) : string :=
  let head := take (Z.to_nat (rfind "/" p + 1)) p in
  match rstrip_slash head with
  | EmptyString => head
  | r => r
  end.

(** [str(n)] for an [int]: decimal digits, ["-"] first when negative. *)
Definition str_of_Z (n : Z) : string := NilZero.string_of_int (Z.to_int n).

(** White space for [str.strip], among the code points below 256. *)
Definition is_space (c : ascii) : bool :=
  let n := N_of_ascii c in
  ((9 <=? n) && (n <=? 13) || (28 <=? n) && (n <=? 32) ||
   (n =? 133) || (n =? 160))%N.

Fixpoint lstrip (s : string) : string :=
  match s with
  | String c rest => if is_space c then lstrip rest else s
  | EmptyString => s
  end.

Fixpoint rstrip (s : string) : string :=
  match s with
  | EmptyString => EmptyString
  | String c rest =>
      match rstrip rest with
      | EmptyString => if is_space c then EmptyString else String c EmptyString
      | r => String c r
      end
  end.

(** [s.strip()]. *)
Definition strip (s : string) : string := rstrip (lstrip s).

Definition is_digit (c : ascii) : bool :=
  let n := N_of_ascii c in ((48 <=? n) && (n <=? 57))%N.

(** The digits of an [int] literal: single underscores may stand between
    two digits. [after_digit] tells what the previous character was. *)
Fixpoint int_digits (after_digit : bool) (s : string) : option string :=
  match s with
  | EmptyString => if after_digit then Some EmptyString else None
  | String c rest =>
      if is_digit c then option_map (String c) (int_digits true rest)
      else if Ascii.eqb c "_" && after_digit then int_digits false rest
      else None
  end.

(** [int(s)] in base ten; [None] is its [ValueError]. *)
Definition int_of_str (s : string) : option Z :=
  let s := strip s in
  let '(negative, body) :=
    match s with
    | String c rest =>
        if Ascii.eqb c "-" then (true, rest)
        else if Ascii.eqb c "+" then (false, rest)
        else (false, s)
    | EmptyString => (false, s)
    end in
  match int_digits false body with
  | Some ds =>
      match NilEmpty.uint_of_string ds with
      | Some u => Some (if negative then - Z.of_uint u else Z.of_uint u)
      | None => None
      end
  | None => None
  end.

(** [sep.join(parts)]. *)
Fixpoint join_with (sep : string) (parts : list string) : string :=
  match parts with
  | [] => EmptyString
  | [p] => p
  | p :: rest => p +:+ sep +:+ join_with sep rest
  end.

(** Case-insensitive equality of two texts, code point by code point. *)
Inductive ci_eq : string -> string -> Prop :=
| ci_eq_nil : ci_eq EmptyString EmptyString
| ci_eq_cons c d s t :
    lower_char c = lower_char d -> ci_eq s t ->
    ci_eq (String c s) (String d t).

(** [name] ends with [ext] when case is ignored. *)
Definition ends_with_ci (name ext : string) : Prop :=
  exists stem tail, name = stem +:+ tail /\ ci_eq tail ext.

End Py.

(** ** Materializer: the target file name *)

Definition CONTAINER_UPLOAD_PATH : string := "/usr/src/app/upload".
Definition HOST_UPLOAD_PATH : string := "/mnt/backup/immich-app/library".

(** Line 109: the display name, with the source file's extension when the
    lowered name does not end with the lowered extension. *)
Definition target_filename (original_filename ext : string) : string :=
  if negb (Py.endswith (Py.lower original_filename) (Py.lower ext))
  then original_filename +:+ ext
  else original_filename.

(** Line 113: the name used when [target_path] exists already. *)
Definition disambiguated (target_filename asset_id ext : string) : string :=
  fst (Py.splitext target_filename) +:+ "_" +:+ asset_id +:+ ext.

(** ** The run-time world

    What the script can observe and change: a file system, the console,
    and the programs it starts. Paths are compared as the strings the
    script builds; [.], [..] and symbolic links are not resolved. *)

(** A file carries its read and write permission bits. *)
Inductive node :=
| Dir
| File (readable writable : bool) (data : string).

(** The exceptions the modelled calls raise. All derive from Python's
    [Exception]; the first six also from [OSError]. *)
Inductive exn :=
| FileNotFoundError
| FileExistsError
| IsADirectoryError
| NotADirectoryError
| PermissionError
| SameFileError
| JSONDecodeError
| ValueError
| AttributeError
| IndexError
| CalledProcessError.

Definition is_OSError (e : exn) : bool :=
  match e with
  | FileNotFoundError | FileExistsError | IsADirectoryError
  | NotADirectoryError | PermissionError | SameFileError => true
  | _ => false
  end.

(** [str(e)], as far as the messages of the script show it. *)
Definition exn_text (e : exn) : string :=
  match e with
  | FileNotFoundError => "No such file or directory"
  | FileExistsError => "File exists"
  | IsADirectoryError => "Is a directory"
  | NotADirectoryError => "Not a directory"
  | PermissionError => "Permission denied"
  | SameFileError => "are the same file"
  | JSONDecodeError => "Expecting value"
  | ValueError => "invalid value"
  | AttributeError => "object has no attribute 'get'"
  | IndexError => "list index out of range"
  | CalledProcessError => "returned non-zero exit status"
  end.

(** The calls that can change the file system, as the script issues them. *)
Inductive effect :=
| Makedirs (path : string)
| OpenW (path : string)
| Link (src dst : string)
| Copy2 (src dst : string)
| Run (cmd : list string)
| Rmtree (path : string).

(** The methods of [BackupState]. *)
Inductive method := Mload | Msave | Mupdate.

Record world := {
  fs : gmap string node;
  effects : list effect;
  calls : list method;
  stdout : list string
}.

(** How a call ends: with a value, or with an exception. *)
Inductive outcome (A : Type) :=
| Ok (a : A)
| Raise (e : exn).
Arguments Ok {A} a.
Arguments Raise {A} e.

(** What the script does not decide: which programs are installed, what a
    started program answers ([None]: a non-zero exit status) and writes to
    the file its [-o] option names, the rows of the inventory query, the
    line the user types, and the order in which the pool's workers run. *)
Record env := {
  which : string -> bool;
  proc : list string -> option string;
  proc_output : list string -> string;
  proc_stderr : list string -> string;
  db_rows : outcome (list asset);
  user_input : string;
  schedule : Z -> list nat
}.

(** Computations: a state monad over [world] with exceptions. *)
Definition M (A : Type) : Type := world -> outcome A * world.

Definition ret {A} (a : A) : M A := fun w => (Ok a, w).

Definition bind {A B} (m : M A) (k : A -> M B) : M B :=
  fun w => match m w with
           | (Ok a, w') => k a w'
           | (Raise e, w') => (Raise e, w')
           end.

Definition raise {A} (e : exn) : M A := fun w => (Raise e, w).

(** [try: m except <class>: handler]; [catches] tells the class. *)
Definition try_except {A} (catches : exn -> bool) (m : M A) (handler : exn -> M A)
  : M A :=
  fun w => match m w with
           | (Ok a, w') => (Ok a, w')
           | (Raise e, w') => if catches e then handler e w' else (Raise e, w')
           end.

Definition Exception (e : exn) : bool := true.

Notation "'do' x <- m ; k" := (bind m (fun x => k))
  (at level 10, x name, m at level 100, k at level 200).
Notation "'do_' m ; k" := (bind m (fun _ => k))
  (at level 10, m at level 100, k at level 200).

(** The world with one component changed. *)
Definition with_fs (f : gmap string node) (w : world) : world :=
  {| fs := f; effects := effects w; calls := calls w; stdout := stdout w |}.

Definition with_effect (e : effect) (w : world) : world :=
  {| fs := fs w; effects := effects w ++ [e];
     calls := calls w; stdout := stdout w |}.

Definition with_call (c : method) (w : world) : world :=
  {| fs := fs w; effects := effects w;
     calls := calls w ++ [c]; stdout := stdout w |}.

Definition with_line (line : string) (w : world) : world :=
  {| fs := fs w; effects := effects w;
     calls := calls w; stdout := stdout w ++ [line] |}.

Definition get_fs : M (gmap string node) := fun w => (Ok (fs w), w).

Definition set_fs (f : gmap string node) : M unit :=
  fun w => (Ok tt, with_fs f w).

Definition log_effect (e : effect) : M unit :=
  fun w => (Ok tt, with_effect e w).

Definition log_call (c : method) : M unit :=
  fun w => (Ok tt, with_call c w).

Definition print (line : string) : M unit :=
  fun w => (Ok tt, with_line line w).

(** *** File system calls *)

(** [os.path.exists(p)]. *)
Definition path_exists (p : string) : M bool :=
  do f <- get_fs; ret (bool_decide (is_Some (f !! p))).

(** The current directory and the root: they always exist. *)
Definition always_there (d : string) : bool :=
  String.eqb d "" || String.eqb d "." || String.eqb d "/".

(** A directory to create an entry in: the current directory, the root,
    or a directory of the file system. *)
Definition parent_ok (f : gmap string node) (p : string) : bool :=
  let d := Py.dirname p in
  always_there d ||
  match f !! d with Some Dir => true | _ => false end.

(** [open(p, 'r').read()]. *)
Definition read_file (p : string) : M string :=
  do f <- get_fs;
  match f !! p with
  | None => raise FileNotFoundError
  | Some Dir => raise IsADirectoryError
  | Some (File r _ data) => if r then ret data else raise PermissionError
  end.

(** [open(p, 'w')], [write(data)] and the closing of the file. *)
Definition write_file (p : string) (data : string) : M unit :=
  do_ log_effect (OpenW p);
  do f <- get_fs;
  match f !! p with
  | Some Dir => raise IsADirectoryError
  | Some (File r w _) =>
      if w then set_fs (<[p := File r w data]> f) else raise PermissionError
  | None =>
      if parent_ok f p then set_fs (<[p := File true true data]> f)
      else raise FileNotFoundError
  end.

(** [os.makedirs(p, exist_ok=True)]: the missing ancestors first. *)
Fixpoint makedirs_fs (fuel : nat) (p : string) (f : gmap string node)
  : outcome (gmap string node) :=
  match f !! p with
  | Some Dir => Ok f
  | Some (File _ _ _) => Raise FileExistsError
  | None =>
      let head := Py.dirname p in
      match fuel with
      | S k =>
          if always_there head || String.eqb head p
          then Ok (<[p := Dir]> f)
          else match makedirs_fs k head f with
               | Ok f' => Ok (<[p := Dir]> f')
               | Raise FileExistsError => Raise NotADirectoryError
               | Raise e => Raise e
               end
      | O => Ok (<[p := Dir]> f)
      end
  end.

Definition makedirs (p : string) : M unit :=
  do_ log_effect (Makedirs p);
  do f <- get_fs;
  match makedirs_fs (String.length p) p f with
  | Ok f' => set_fs f'
  | Raise e => raise e
  end.

(** [os.link(src, dst)]: a second name for the file [src]. *)
Definition os_link (src dst : string) : M unit :=
  do_ log_effect (Link src dst);
  do f <- get_fs;
  match f !! src with
  | None => raise FileNotFoundError
  | Some Dir => raise PermissionError
  | Some (File r w data) =>
      match f !! dst with
      | Some _ => raise FileExistsError
      | None => if parent_ok f dst then set_fs (<[dst := File r w data]> f)
                else raise FileNotFoundError
      end
  end.

(** [shutil.copy2(src, dst)]: into [dst] when it is a directory, over
    [dst] otherwise, with the source's permission bits. *)
Definition copy2 (src dst : string) : M unit :=
  do_ log_effect (Copy2 src dst);
  do f <- get_fs;
  let dst := match f !! dst with
             | Some Dir => Py.join dst (Py.basename src)
             | _ => dst
             end in
  match f !! src with
  | None => raise FileNotFoundError
  | Some Dir => raise IsADirectoryError
  | Some (File r w data) =>
      if String.eqb src dst then raise SameFileError
      else if negb r then raise PermissionError
      else match f !! dst with
           | Some Dir => raise IsADirectoryError
           | Some (File _ false _) => raise PermissionError
           | Some (File _ true _) => set_fs (<[dst := File r w data]> f)
           | None => if parent_ok f dst
                     then set_fs (<[dst := File r w data]> f)
                     else raise FileNotFoundError
           end
  end.

(** [p] is [dir] or lies under it. *)
Definition under (dir p : string) : bool :=
  String.eqb p dir || Py.startswith p (dir +:+ "/").

(** [shutil.rmtree(p)]. *)
Definition rmtree (p : string) : M unit :=
  do_ log_effect (Rmtree p);
  do f <- get_fs;
  match f !! p with
  | None => raise FileNotFoundError
  | Some (File _ _ _) => raise NotADirectoryError
  | Some Dir => set_fs (filter (fun kv => under p (fst kv) = false) f)
  end.

(** The argument that follows [-o] on a command line. *)
Fixpoint output_arg (cmd : list string) : option string :=
  match cmd with
  | flag :: rest =>
      if String.eqb flag "-o" then head rest else output_arg rest
  | [] => None
  end.

(** [subprocess.run(cmd, capture_output=True, text=True, check=True)]: the
    program's standard output, or [CalledProcessError]. A program that
    succeeds has written the file its [-o] option names. *)
Definition subprocess_run (E : env) (cmd : list string) : M string :=
  do_ log_effect (Run cmd);
  match proc E cmd with
  | None => raise CalledProcessError
  | Some out =>
      match output_arg cmd with
      | Some path =>
          do f <- get_fs;
          do_ set_fs (<[path := File true true (proc_output E cmd)]> f);
          ret out
      | None => ret out
      end
  end.

(** The paths a call can change: for [makedirs], the path and the
    directories above it, which are among the prefixes of its text. *)
Definition touches (e : effect) (p : string) : Prop :=
  match e with
  | Makedirs q => String.prefix p q = true
  | OpenW q => q = p
  | Link _ dst => dst = p
  | Copy2 src dst => dst = p \/ Py.join dst (Py.basename src) = p
  | Run cmd => output_arg cmd = Some p
  | Rmtree q => under q p = true
  end.

(** A call that opens no file for writing. *)
Definition quiet (e : effect) : Prop :=
  match e with
  | OpenW _ => False
  | _ => True
  end.

(** From [w] to [w'] the tracker was at most loaded, no file was opened
    for writing, and a path that none of the calls made in between can
    change holds what it held. *)
Definition frame (w w' : world) : Prop :=
  (exists c, calls w' = calls w ++ c /\ Forall (fun m => m = Mload) c) /\
  (exists l, effects w' = effects w ++ l /\ Forall quiet l /\
             forall p, Forall (fun e => ~ touches e p) l ->
                       fs w' !! p = fs w !! p).

(** A computation that keeps to [frame], whatever its result. *)
Definition preserves {A} (m : M A) : Prop :=
  forall w, frame w (snd (m w)).

(** ** JSON: [json.dump] and [json.load]

    The values [json.load] builds and the text [json.dump] writes with its
    default settings ([ensure_ascii], separators [", "] and [": "]).
    A float is kept as the literal that denotes it. A [\u] escape above
    U+00FF has no counterpart in [string] and is refused here. *)

Module Json.

#[warnings="-register-all"]
Inductive pyval :=
| PNone
| PBool (b : bool)
| PInt (n : Z)
| PFloat (literal : string)
| PStr (s : string)
| PList (items : list pyval)
| PDict (items : list (string * pyval)).

(** [d.get(k)], [None] when the key is missing. *)
Fixpoint dict_get (d : list (string * pyval)) (k : string) : option pyval :=
  match d with
  | [] => None
  | (k', v) :: rest => if String.eqb k' k then Some v else dict_get rest k
  end.

(** [d[k] = v]: in place when the key is there, at the end otherwise. *)
Fixpoint dict_set (d : list (string * pyval)) (k : string) (v : pyval)
  : list (string * pyval) :=
  match d with
  | [] => [(k, v)]
  | (k', v') :: rest =>
      if String.eqb k' k then (k', v) :: rest else (k', v') :: dict_set rest k v
  end.

Definition dquote : ascii := "034"%char.
Definition backslash : ascii := "092"%char.

(** *** Writing *)

Definition hex_digit (n : N) : ascii :=
  if (n <? 10)%N then ascii_of_N (48 + n) else ascii_of_N (87 + n).

(** [ESCAPE_ASCII]: the quote, the backslash, and everything outside
    [' '..'~']. *)
Definition escape_char (c : ascii) : string :=
  let n := N_of_ascii c in
  if (n =? 34)%N then String backslash (String dquote EmptyString)
  else if (n =? 92)%N then String backslash (String backslash EmptyString)
  else if (n =? 10)%N then String backslash "n"
  else if (n =? 13)%N then String backslash "r"
  else if (n =? 9)%N then String backslash "t"
  else if (n =? 8)%N then String backslash "b"
  else if (n =? 12)%N then String backslash "f"
  else if ((n <? 32) || (126 <? n))%N then
    String backslash
      (String "u" (String "0" (String "0"
         (String (hex_digit (n / 16)) (String (hex_digit (n mod 16))
            EmptyString)))))
  else String c EmptyString.

Fixpoint escape (s : string) : string :=
  match s with
  | EmptyString => EmptyString
  | String c rest => escape_char c +:+ escape rest
  end.

Definition quote (s : string) : string :=
  String dquote (escape s +:+ String dquote EmptyString).

Fixpoint dumps (v : pyval) : string :=
  match v with
  | PNone => "null"
  | PBool true => "true"
  | PBool false => "false"
  | PInt n => Py.str_of_Z n
  | PFloat literal => literal
  | PStr s => quote s
  | PList items =>
      "[" +:+
      (fix elements (l : list pyval) : string :=
         match l with
         | [] => EmptyString
         | [x] => dumps x
         | x :: rest => dumps x +:+ ", " +:+ elements rest
         end) items
      +:+ "]"
  | PDict items =>
      "{" +:+
      (fix members (l : list (string * pyval)) : string :=
         match l with
         | [] => EmptyString
         | [(k, x)] => quote k +:+ ": " +:+ dumps x
         | (k, x) :: rest => quote k +:+ ": " +:+ dumps x +:+ ", " +:+ members rest
         end) items
      +:+ "}"
  end.

(** *** Reading *)

Definition is_ws (c : ascii) : bool :=
  let n := N_of_ascii c in
  ((n =? 32) || (n =? 9) || (n =? 10) || (n =? 13))%N.

Fixpoint skip_ws (s : string) : string :=
  match s with
  | String c rest => if is_ws c then skip_ws rest else s
  | EmptyString => s
  end.

Definition is_digit (c : ascii) : bool := Py.is_digit c.

Definition hex_value (c : ascii) : option N :=
  let n := N_of_ascii c in
  if ((48 <=? n) && (n <=? 57))%N then Some (n - 48)%N
  else if ((97 <=? n) && (n <=? 102))%N then Some (n - 87)%N
  else if ((65 <=? n) && (n <=? 70))%N then Some (n - 55)%N
  else None.

Definition hex4 (h1 h2 h3 h4 : ascii) : option N :=
  match hex_value h1, hex_value h2, hex_value h3, hex_value h4 with
  | Some a, Some b, Some c, Some d => Some (((a * 16 + b) * 16 + c) * 16 + d)%N
  | _, _, _, _ => None
  end.

(** The character a backslash introduces, [\u] apart. *)
Definition unescape (e : ascii) : option ascii :=
  let n := N_of_ascii e in
  if (n =? 34)%N then Some dquote
  else if (n =? 92)%N then Some backslash
  else if (n =? 47)%N then Some "/"%char
  else if (n =? 98)%N then Some "008"%char
  else if (n =? 102)%N then Some "012"%char
  else if (n =? 110)%N then Some "010"%char
  else if (n =? 114)%N then Some "013"%char
  else if (n =? 116)%N then Some "009"%char
  else None.

Definition cons_char (c : ascii) (r : option (string * string))
  : option (string * string) :=
  match r with
  | Some (s, rest) => Some (String c s, rest)
  | None => None
  end.

(** [scanstring], from after the opening quote: the text and what
    follows the closing quote. *)
Fixpoint scanstring (s : string) : option (string * string) :=
  match s with
  | EmptyString => None
  | String c r =>
      if Ascii.eqb c dquote then Some (EmptyString, r)
      else if Ascii.eqb c backslash then
        match r with
        | EmptyString => None
        | String e r1 =>
            if Ascii.eqb e "u" then
              match r1 with
              | String h1 (String h2 (String h3 (String h4 r2))) =>
                  match hex4 h1 h2 h3 h4 with
                  | Some n =>
                      if (n <? 256)%N
                      then cons_char (ascii_of_N n) (scanstring r2)
                      else None
                  | None => None
                  end
              | _ => None
              end
            else
              match unescape e with
              | Some ch => cons_char ch (scanstring r1)
              | None => None
              end
        end
      else if (N_of_ascii c <? 32)%N then None
      else cons_char c (scanstring r)
  end.

(** The longest run of digits at the start. *)
Fixpoint span_digits (s : string) : string * string :=
  match s with
  | String c r =>
      if is_digit c
      then let '(ds, rest) := span_digits r in (String c ds, rest)
      else (EmptyString, s)
  | EmptyString => (EmptyString, s)
  end.

(** The integer digits of [NUMBER_RE]: a lone zero, or a run of digits
    that starts with a non-zero one. *)
Definition int_part (s : string) : option (string * string) :=
  match s with
  | String c r =>
      if Ascii.eqb c "0" then Some ("0", r)
      else if is_digit c then Some (span_digits s)
      else None
  | EmptyString => None
  end.

(** The optional fraction of [NUMBER_RE]: a dot and at least one digit. *)
Definition frac_part (s : string) : string * string :=
  match s with
  | String c r =>
      if Ascii.eqb c "." then
        match span_digits r with
        | (EmptyString, _) => (EmptyString, s)
        | (ds, rest) => (String c ds, rest)
        end
      else (EmptyString, s)
  | EmptyString => (EmptyString, s)
  end.

(** The optional exponent of [NUMBER_RE]: [e] or [E], a sign if any,
    and at least one digit. *)
Definition exp_part (s : string) : string * string :=
  match s with
  | String c r =>
      if Ascii.eqb c "e" || Ascii.eqb c "E" then
        let '(sign, r1) :=
          match r with
          | String g r' =>
              if Ascii.eqb g "-" || Ascii.eqb g "+"
              then (String g EmptyString, r') else (EmptyString, r)
          | EmptyString => (EmptyString, r)
          end in
        match span_digits r1 with
        | (EmptyString, _) => (EmptyString, s)
        | (ds, rest) => (String c (sign +:+ ds), rest)
        end
      else (EmptyString, s)
  | EmptyString => (EmptyString, s)
  end.

(** [int(literal)] for a literal of [NUMBER_RE]'s integer group. *)
Definition int_of_literal (literal : string) : option Z :=
  option_map Z.of_int (NilZero.int_of_string literal).

(** [NUMBER_RE] and the choice between [int] and [float]. *)
Definition lex_number (s : string) : option (pyval * string) :=
  let '(sign, s1) :=
    match s with
    | String c r => if Ascii.eqb c "-" then ("-", r) else (EmptyString, s)
    | EmptyString => (EmptyString, s)
    end in
  match int_part s1 with
  | None => None
  | Some (ds, r) =>
      let integer := sign +:+ ds in
      let '(frac, r1) := frac_part r in
      let '(exp, r2) := exp_part r1 in
      match frac, exp with
      | EmptyString, EmptyString =>
          match int_of_literal integer with
          | Some n => Some (PInt n, r2)
          | None => None
          end
      | _, _ => Some (PFloat (integer +:+ frac +:+ exp), r2)
      end
  end.

(** A fixed word at the start. *)
Definition keyword (word : string) (v : pyval) (s : string)
  : option (pyval * string) :=
  if String.prefix word s then Some (v, Py.drop (String.length word) s)
  else None.

Definition first_some {A} (a b : option A) : option A :=
  match a with Some _ => a | None => b end.

(** [scan_once] with [JSONObject] and [JSONArray]. The fuel bounds the
    nesting and the number of members; [None] is a [JSONDecodeError]. *)
Fixpoint parse_value (fuel : nat) (s : string) {struct fuel}
  : option (pyval * string) :=
  match fuel with
  | O => None
  | S n =>
      match s with
      | EmptyString => None
      | String c r =>
          if Ascii.eqb c dquote then
            match scanstring r with
            | Some (t, rest) => Some (PStr t, rest)
            | None => None
            end
          else if Ascii.eqb c "{" then
            match skip_ws r with
            | String c1 r1 =>
                if Ascii.eqb c1 "}" then Some (PDict [], r1)
                else parse_members n [] (skip_ws r)
            | EmptyString => None
            end
          else if Ascii.eqb c "[" then
            match skip_ws r with
            | String c1 r1 =>
                if Ascii.eqb c1 "]" then Some (PList [], r1)
                else parse_elements n [] (skip_ws r)
            | EmptyString => None
            end
          else
            first_some (keyword "null" PNone s)
              (first_some (keyword "true" (PBool true) s)
                 (first_some (keyword "false" (PBool false) s)
                    (first_some (lex_number s)
                       (first_some (keyword "NaN" (PFloat "NaN") s)
                          (first_some (keyword "Infinity" (PFloat "Infinity") s)
                             (keyword "-Infinity" (PFloat "-Infinity") s))))))
      end
  end
with parse_members (fuel : nat) (acc : list (string * pyval)) (s : string)
    {struct fuel} : option (pyval * string) :=
  match fuel with
  | O => None
  | S n =>
      match s with
      | EmptyString => None
      | String c r =>
          if Ascii.eqb c dquote then
            match scanstring r with
            | None => None
            | Some (key, r1) =>
                match skip_ws r1 with
                | EmptyString => None
                | String c2 r2 =>
                    if Ascii.eqb c2 ":" then
                      match parse_value n (skip_ws r2) with
                      | None => None
                      | Some (v, r3) =>
                          let acc' := dict_set acc key v in
                          match skip_ws r3 with
                          | EmptyString => None
                          | String c4 r4 =>
                              if Ascii.eqb c4 "}" then Some (PDict acc', r4)
                              else if Ascii.eqb c4 ","
                              then parse_members n acc' (skip_ws r4)
                              else None
                          end
                      end
                    else None
                end
            end
          else None
      end
  end
with parse_elements (fuel : nat) (acc : list pyval) (s : string)
    {struct fuel} : option (pyval * string) :=
  match fuel with
  | O => None
  | S n =>
      match parse_value n s with
      | None => None
      | Some (v, r1) =>
          let acc' := acc ++ [v] in
          match skip_ws r1 with
          | EmptyString => None
          | String c2 r2 =>
              if Ascii.eqb c2 "]" then Some (PList acc', r2)
              else if Ascii.eqb c2 ","
              then parse_elements n acc' (skip_ws r2)
              else None
          end
      end
  end.

(** [json.loads(s)]: one value, with nothing but white space around it. *)
Definition loads (s : string) : outcome pyval :=
  match parse_value (2 * String.length s + 2) (skip_ws s) with
  | Some (v, rest) =>
      match skip_ws rest with
      | EmptyString => Ok v
      | _ => Raise JSONDecodeError
      end
  | None => Raise JSONDecodeError
  end.

(** White space or the end: what [dumps] puts after a number. *)
Definition ends_number (rest : string) : Prop :=
  match rest with
  | EmptyString => True
  | String c _ =>
      is_digit c = false /\ Ascii.eqb c "." = false /\
      Ascii.eqb c "e" = false /\ Ascii.eqb c "E" = false
  end.

(** No digit follows. *)
Definition no_digit_next (rest : string) : Prop :=
  match rest with
  | EmptyString => True
  | String c _ => is_digit c = false
  end.

(** The values [dumps] writes without brackets. *)
Definition scalar (v : pyval) : Prop :=
  match v with
  | PNone | PBool _ | PInt _ | PStr _ => True
  | _ => False
  end.

(** The text [dumps] writes between the braces of a dict. *)
Fixpoint members_text (l : list (string * pyval)) : string :=
  match l with
  | [] => EmptyString
  | [(k, x)] => quote k +:+ ": " +:+ dumps x
  | (k, x) :: rest => quote k +:+ ": " +:+ dumps x +:+ ", " +:+ members_text rest
  end.

(** A dict whose values are scalars. *)
Definition flat (items : list (string * pyval)) : Prop :=
  Forall (fun kv => scalar (snd kv)) items.

(** [d[k] = v] for each pair of [items], in order. *)
Definition dict_update (d items : list (string * pyval))
  : list (string * pyval) :=
  foldl (fun d kv => dict_set d (fst kv) (snd kv)) d items.

End Json.

(** ** Progress tracker: [BackupState]

    The object's attributes hold what [json.load] gave or what [update]
    was passed. [with self.lock] makes a method body one step with
    respect to the other threads; here every method runs as one step. *)

Module Tracker.

Import Json.

Record BackupState := {
  state_file : string;
  last_asset_id : pyval;
  current_dvd : pyval;
  current_dvd_size : pyval
}.

(** Lines 22-26: the attributes before [load] runs. *)
Definition fresh (state_file : string) : BackupState :=
  {| state_file := state_file;
     last_asset_id := PNone;
     current_dvd := PInt 1;
     current_dvd_size := PInt 0 |}.

(** [state.get(key, default)] on what [json.load] returned: a value that
    is no dict has no [get]. *)
Definition get (state : pyval) (key : string) (default : pyval) : M pyval :=
  match state with
  | PDict d => ret (match dict_get d key with Some v => v | None => default end)
  | _ => raise AttributeError
  end.

Definition lift {A} (o : outcome A) : M A :=
  match o with
  | Ok a => ret a
  | Raise e => raise e
  end.

Definition warning (e : exn) : string :=
  "Warning: Could not load state file: " +:+ exn_text e +:+ ". Starting fresh.".

Definition load (self : BackupState) : M BackupState :=
  do_ log_call Mload;
  do present <- path_exists (state_file self);
  if present then
    try_except Exception
      (do text <- read_file (state_file self);
       do state <- lift (loads text);
       do v1 <- get state "last_asset_id" PNone;
       do v2 <- get state "current_dvd" (PInt 1);
       do v3 <- get state "current_dvd_size" (PInt 0);
       ret {| state_file := state_file self;
              last_asset_id := v1;
              current_dvd := v2;
              current_dvd_size := v3 |})
      (fun e => do_ print (warning e); ret self)
  else ret self.

(** [BackupState(state_file)]. *)
Definition init (state_file : string) : M BackupState :=
  load (fresh state_file).

(** The dict that [save] hands to [json.dump]. *)
Definition record (self : BackupState) : pyval :=
  PDict [("last_asset_id", last_asset_id self);
         ("current_dvd", current_dvd self);
         ("current_dvd_size", current_dvd_size self)].

Definition save (self : BackupState) : M unit :=
  do_ log_call Msave;
  write_file (state_file self) (dumps (record self)).


(** What [open] and [json.load] give for the state file of a file
    system. *)
Definition stored (f : gmap string node) (path : string) : outcome pyval :=
  match f !! path with
  | None => Raise FileNotFoundError
  | Some Dir => Raise IsADirectoryError
  | Some (File r _ data) => if r then loads data else Raise PermissionError
  end.

(** The attributes that lines 34-36 assign from a loaded value. *)
Definition decode (path : string) (state : pyval) : outcome BackupState :=
  match state with
  | PDict d =>
      Ok {| state_file := path;
            last_asset_id :=
              match dict_get d "last_asset_id" with
              | Some v => v | None => PNone end;
            current_dvd :=
              match dict_get d "current_dvd" with
              | Some v => v | None => PInt 1 end;
            current_dvd_size :=
              match dict_get d "current_dvd_size" with
              | Some v => v | None => PInt 0 end |}
  | _ => Raise AttributeError
  end.

Definition read_state (f : gmap string node) (path : string)
  : outcome BackupState :=
  match stored f path with
  | Ok state => decode path state
  | Raise e => Raise e
  end.


(** A state as the data model types it: an identifier or none, and two
    integers. *)
Definition typed (state_file : string) (asset_id : option string)
    (dvd dvd_size : Z) : BackupState :=
  {| state_file := state_file;
     last_asset_id := match asset_id with Some s => PStr s | None => PNone end;
     current_dvd := PInt dvd;
     current_dvd_size := PInt dvd_size |}.

(** The state file, if there is one, can be read. *)
Definition readable_if_present (w : world) (path : string) : Prop :=
  forall wr data, fs w !! path <> Some (File false wr data).

(** *** Two worlds for the default state file *)

Definition state_path : string := "./immich_backup_state.json".

(** No state file yet. *)
Definition first_run : world :=
  {| fs := ∅; effects := []; calls := []; stdout := [] |}.

(** The state file of a run that saved the initial state. *)
Definition later_run : world :=
  {| fs := {[ state_path := File true true (dumps (record (fresh state_path))) ]};
     effects := []; calls := []; stdout := [] |}.

(** The reading of the specification under which [load] announces every
    default it falls back to: whenever the state file is absent or cannot
    be read or parsed, the tracker starts from the defaults and a warning
    is printed. *)
Definition load_warns_on_every_default : Prop :=
  forall path w,
    fs w !! path = None \/ (exists e, read_state (fs w) path = Raise e) ->
    exists self w' e,
      init path w = (Ok self, w') /\ self = fresh path /\
      stdout w' = stdout w ++ [warning e].


End Tracker.

(** ** Materializer: [copy_asset] *)

(** Line 101: the host path of a container path under the upload prefix. *)
Definition host_path_of (container_path : string) : string :=
  Py.replace1 CONTAINER_UPLOAD_PATH HOST_UPLOAD_PATH container_path.

(** Lines 108-110: the first choice for an asset's place in [dvd_dir]. *)
Definition initial_target (a : asset) (dvd_dir host_path : string) : string :=
  let ext := snd (Py.splitext host_path) in
  Py.join dvd_dir (target_filename (originalFileName a) ext).

(** Line 113: the second choice, taken when the first exists. *)
Definition fallback_target (a : asset) (dvd_dir host_path : string) : string :=
  let ext := snd (Py.splitext host_path) in
  Py.join dvd_dir
    (disambiguated (target_filename (originalFileName a) ext) (id a) ext).

(** The line printed at line 128. *)
Definition error_line (host_path target_path : string) (e : exn) : string :=
  "Error copying " +:+ host_path +:+ " to " +:+ target_path
  +:+ ": " +:+ exn_text e.

(** Lines 118-129: the placement and its two handlers. *)
Definition place (host_path target_path : string) (use_links : bool) : M bool :=
  try_except Exception
    (do_ (if use_links
          then try_except is_OSError (os_link host_path target_path)
                          (fun _ => copy2 host_path target_path)
          else copy2 host_path target_path);
     ret true)
    (fun e =>
       do_ print (error_line host_path target_path e);
       ret false).

Definition copy_asset (a : asset) (dvd_dir : string) (dry_run use_links : bool)
  : M bool :=
  let container_path := originalPath a in
  if Py.startswith container_path CONTAINER_UPLOAD_PATH then
    let host_path := host_path_of container_path in
    do host_exists <- path_exists host_path;
    if negb host_exists then ret false
    else
      let target_path := initial_target a dvd_dir host_path in
      do target_exists <- path_exists target_path;
      let target_path :=
        if target_exists then fallback_target a dvd_dir host_path
        else target_path in
      if dry_run then ret true
      else place host_path target_path use_links
  else ret false.

(** ** The worker pool

    [ThreadPoolExecutor] runs the [copy_asset] calls of one chunk on
    several threads. A thread can be preempted between any two of its
    calls to the operating system, so a call in progress is one of: *)
Inductive worker :=
| Queued (a : asset)
    (** submitted, not started *)
| Resolved (a : asset) (host_path : string)
    (** line 105 found the source; line 112 is next *)
| Chosen (a : asset) (host_path target_path : string)
    (** line 116 passed; the placement is next *)
| LinkFailed (a : asset) (host_path target_path : string)
    (** [os.link] raised [OSError]; line 123 is next *)
| Finished (a : asset) (success : bool).

(** The next operating-system call of a worker, and what the thread does
    up to its following call. *)
Definition worker_step (dvd_dir : string) (dry_run use_links : bool)
    (w : worker) : M worker :=
  match w with
  | Queued a =>
      let container_path := originalPath a in
      if Py.startswith container_path CONTAINER_UPLOAD_PATH then
        let host_path := host_path_of container_path in
        do host_exists <- path_exists host_path;
        if negb host_exists then ret (Finished a false)
        else ret (Resolved a host_path)
      else ret (Finished a false)
  | Resolved a host_path =>
      let target_path := initial_target a dvd_dir host_path in
      do target_exists <- path_exists target_path;
      let target_path :=
        if target_exists then fallback_target a dvd_dir host_path
        else target_path in
      if dry_run then ret (Finished a true)
      else ret (Chosen a host_path target_path)
  | Chosen a host_path target_path =>
      if use_links then
        try_except Exception
          (try_except is_OSError
             (do_ os_link host_path target_path; ret (Finished a true))
             (fun _ => ret (LinkFailed a host_path target_path)))
          (fun e => do_ print (error_line host_path target_path e);
                    ret (Finished a false))
      else
        try_except Exception
          (do_ copy2 host_path target_path; ret (Finished a true))
          (fun e => do_ print (error_line host_path target_path e);
                    ret (Finished a false))
  | LinkFailed a host_path target_path =>
      try_except Exception
        (do_ copy2 host_path target_path; ret (Finished a true))
        (fun e => do_ print (error_line host_path target_path e);
                  ret (Finished a false))
  | Finished a success => ret (Finished a success)
  end.

(** A worker run to its end without preemption: four steps at most. *)
Definition worker_finish (dvd_dir : string) (dry_run use_links : bool)
    (w : worker) : M worker :=
  do w1 <- worker_step dvd_dir dry_run use_links w;
  do w2 <- worker_step dvd_dir dry_run use_links w1;
  do w3 <- worker_step dvd_dir dry_run use_links w2;
  worker_step dvd_dir dry_run use_links w3.

Definition started (w : worker) : bool :=
  match w with Queued _ => false | _ => true end.

Definition finished (w : worker) : bool :=
  match w with Finished _ _ => true | _ => false end.

Definition in_flight (ws : list worker) : nat :=
  length (filter (fun w => started w && negb (finished w) = true) ws).

(** The executor takes calls from its queue in submission order, and has
    at most [threads] of them in progress. *)
Definition may_step (threads : Z) (ws : list worker) (i : nat) : bool :=
  match ws !! i with
  | None => false
  | Some (Finished _ _) => false
  | Some (Queued _) =>
      forallb started (take i ws) && (Z.of_nat (in_flight ws) <? threads)
  | Some _ => true
  end.

(** The pool under a schedule: the list of workers to run next, each for
    one step. An entry that names no runnable worker is passed over. *)
Fixpoint run_schedule (dvd_dir : string) (dry_run use_links : bool)
    (threads : Z) (sched : list nat) (ws : list worker) : M (list worker) :=
  match sched with
  | [] => ret ws
  | i :: rest =>
      match ws !! i with
      | Some w =>
          if may_step threads ws i then
            do w' <- worker_step dvd_dir dry_run use_links w;
            run_schedule dvd_dir dry_run use_links threads rest (<[i := w']> ws)
          else run_schedule dvd_dir dry_run use_links threads rest ws
      | None => run_schedule dvd_dir dry_run use_links threads rest ws
      end
  end.

(** Leaving the [with] block waits for every call: what the schedule left
    unfinished is completed in submission order. *)
Fixpoint drain (dvd_dir : string) (dry_run use_links : bool)
    (ws : list worker) : M (list worker) :=
  match ws with
  | [] => ret []
  | w :: rest =>
      do w' <- worker_finish dvd_dir dry_run use_links w;
      do rest' <- drain dvd_dir dry_run use_links rest;
      ret (w' :: rest')
  end.

(** Lines 252-264 without the progress lines: the executor, the submitted
    calls and their results. [max_workers <= 0] raises [ValueError]. *)
Definition run_pool (dvd_dir : string) (dry_run use_links : bool)
    (threads : Z) (sched : list nat) (dvd_assets : list asset)
  : M (list worker) :=
  if threads <=? 0 then raise ValueError
  else
    do ws <- run_schedule dvd_dir dry_run use_links threads sched
                      (map Queued dvd_assets);
    drain dvd_dir dry_run use_links ws.

(** Where a worker has written or is about to write, if anywhere. *)
Definition worker_target (w : worker) : option string :=
  match w with
  | Chosen _ _ t | LinkFailed _ _ t => Some t
  | _ => None
  end.

(** The host path that line 101 computes, as the prefix rewrite it is. *)
Definition rewritten (container_path : string) : string :=
  HOST_UPLOAD_PATH +:+
  Py.drop (String.length CONTAINER_UPLOAD_PATH) container_path.

(** The asset's source resolves: its path is under the container prefix
    and the rewritten path exists. *)
Definition resolves (a : asset) (w : world) : bool :=
  Py.startswith (originalPath a) CONTAINER_UPLOAD_PATH &&
  bool_decide (is_Some (fs w !! rewritten (originalPath a))).

(** The states a worker of a dry run can be in, for its asset [a]. *)
Definition dry_state (w : world) (a : asset) (k : worker) : Prop :=
  k = Queued a \/
  (k = Resolved a (host_path_of (originalPath a)) /\ resolves a w = true) \/
  k = Finished a (resolves a w).

(** The destinations of the placement calls among [l], in order. *)
Definition placements (l : list effect) : list string :=
  omap (fun e => match e with
                 | Copy2 _ dst | Link _ dst => Some dst
                 | _ => None
                 end) l.

(** *** A chunk with two assets of one display name *)

Definition twin1 : asset :=
  {| id := "A1";
     originalPath := "/usr/src/app/upload/library/u1/IMG_0001.jpg";
     originalFileName := "IMG_0001.jpg";
     fileCreatedAt := "2020-01-01T10:00:00.000Z";
     fileSizeInByte := Some 10 |}.

Definition twin2 : asset :=
  {| id := "B2";
     originalPath := "/usr/src/app/upload/library/u2/IMG_0001.jpg";
     originalFileName := "IMG_0001.jpg";
     fileCreatedAt := "2020-01-02T10:00:00.000Z";
     fileSizeInByte := Some 20 |}.

(** An asset whose path is not under the container prefix. *)
Definition stray : asset :=
  {| id := "C3";
     originalPath := "/data/elsewhere/IMG_0002.jpg";
     originalFileName := "IMG_0002.jpg";
     fileCreatedAt := "2020-01-03T10:00:00.000Z";
     fileSizeInByte := None |}.

(** Both source files in the library, and an empty staging directory. *)
Definition twin_fs : gmap string node :=
  <["/mnt/backup/immich-app/library/library/u1/IMG_0001.jpg" := File true true "one"]>
  (<["/mnt/backup/immich-app/library/library/u2/IMG_0001.jpg" := File true true "two"]>
  (<["./immich_backups" := Dir]>
  (<["./immich_backups/DVD_1" := Dir]> ∅))).

Definition twin_world : world :=
  {| fs := twin_fs; effects := []; calls := []; stdout := [] |}.

(** A third asset, whose display name is the name the second one falls
    back to. *)
Definition namesake : asset :=
  {| id := "C4";
     originalPath := "/usr/src/app/upload/library/u3/IMG_0001_B2.jpg";
     originalFileName := "IMG_0001_B2.jpg";
     fileCreatedAt := "2020-01-01T18:00:00.000Z";
     fileSizeInByte := Some 30 |}.

Definition namesake_world : world :=
  {| fs := <["/mnt/backup/immich-app/library/library/u3/IMG_0001_B2.jpg"
               := File true true "three"]> twin_fs;
     effects := []; calls := []; stdout := [] |}.

(** Two threads, each preempted after each of its calls. *)
Definition alternating : list nat := [0; 1; 0; 1; 0; 1]%nat.

(** ** Archive builder: [run_command] and [create_iso] *)

Definition is_CalledProcessError (e : exn) : bool :=
  match e with CalledProcessError => true | _ => false end.

Definition run_command (E : env) (cmd : list string) : M string :=
  try_except is_CalledProcessError
    (subprocess_run E cmd)
    (fun e =>
       do_ print ("Error running command: " +:+ Py.join_with " " cmd);
       do_ print ("Stderr: " +:+ proc_stderr E cmd);
       raise e).

(** Lines 134-138: the candidate command lines, in order of preference. *)
Definition iso_tools (source_dir iso_path : string) : list (list string) :=
  [ ["xorriso"; "-as"; "mkisofs"; "-o"; iso_path; "-J"; "-R"; "-V";
     Py.basename source_dir; source_dir];
    ["genisoimage"; "-o"; iso_path; "-J"; "-R"; "-V";
     Py.basename source_dir; source_dir];
    ["mkisofs"; "-o"; iso_path; "-J"; "-R"; "-V";
     Py.basename source_dir; source_dir] ].

(** [cmd[0]]. *)
Definition program (cmd : list string) : string :=
  match cmd with p :: _ => p | [] => EmptyString end.

(** Lines 140-151: the loop over the candidates and what follows it. *)
Fixpoint try_tools (E : env) (iso_path : string) (tools : list (list string))
  : M bool :=
  match tools with
  | [] =>
      do_ print "Error: No ISO creation tool found (xorriso, genisoimage, or mkisofs).";
      do_ print "Please install one of them (e.g., 'sudo pacman -S libisoburn' for xorriso).";
      ret false
  | cmd :: rest =>
      if which E (program cmd) then
        do created <-
          try_except Exception
            (do_ run_command E cmd;
             do_ print ("ISO created successfully: " +:+ iso_path);
             ret true)
            (fun e =>
               do_ print ("Error creating ISO with " +:+ program cmd +:+ ": "
                          +:+ exn_text e);
               ret false);
        if created then ret true else try_tools E iso_path rest
      else try_tools E iso_path rest
  end.

Definition create_iso (E : env) (source_dir iso_path : string) : M bool :=
  do_ print ("Generating ISO image: " +:+ iso_path +:+ "...");
  try_tools E iso_path (iso_tools source_dir iso_path).

(** Lines 266-269: the archive and, when it was built, the cleanup. *)
Definition archive_step (E : env) (dry_run : bool) (dvd_dir iso_path : string)
  : M unit :=
  if negb dry_run then
    do created <- create_iso E dvd_dir iso_path;
    if created then
      do_ print ("Cleaning up temporary directory " +:+ dvd_dir +:+ "...");
      rmtree dvd_dir
    else ret tt
  else ret tt.

(** A candidate that cannot build the archive: not installed, or failing. *)
Definition unusable (E : env) (cmd : list string) : Prop :=
  which E (program cmd) = false \/ proc E cmd = None.

(** The candidates of a list that are started: the installed ones. *)
Definition installed (E : env) (tools : list (list string))
  : list (list string) :=
  filter (fun cmd => which E (program cmd) = true) tools.

(** The outcome of the loop over the candidates, from world [w] to world
    [w']: either it stopped at the first candidate that is installed and
    succeeds, having started the installed ones before it and that one,
    or no candidate is usable, the installed ones were all started, and
    the file system is as before. *)
Definition tried (E : env) (tools : list (list string)) (w w' : world)
    (created : bool)
  : Prop :=
  (created = true /\
   exists before cmd after,
     tools = before ++ cmd :: after /\
     Forall (unusable E) before /\
     which E (program cmd) = true /\ is_Some (proc E cmd) /\
     effects w' = effects w ++ map Run (installed E before ++ [cmd])) \/
  (created = false /\
   Forall (unusable E) tools /\
   effects w' = effects w ++ map Run (installed E tools) /\
   fs w' = fs w).

(** ** Orchestration: [get_assets_from_db] and [main]

    The menu and the progress lines that [main] prints are left out; the
    console holds the lines of the components. *)

(** Lines 14-16: the defaults of the command line. *)
Definition DVD_CAPACITY_BYTES : Z := 4700000000.
Definition DEFAULT_BACKUP_DIR : string := "./immich_backups".
Definition DEFAULT_STATE_FILE : string := "./immich_backup_state.json".

Record args := {
  backup_dir : string;
  arg_state_file : string;
  capacity : Z;
  dry_run : bool;
  use_links : bool;
  threads : Z
}.

(** Lines 66-76: the text of the inventory query. *)
Definition query : string :=
  "
    SELECT 
        a.id, 
        a." +:+ String Json.dquote
  ("originalPath" +:+ String Json.dquote
  (", 
        a." +:+ String Json.dquote
  ("originalFileName" +:+ String Json.dquote
  (", 
        a." +:+ String Json.dquote
  ("fileCreatedAt" +:+ String Json.dquote
  (",
        e." +:+ String Json.dquote
  ("fileSizeInByte" +:+ String Json.dquote
  (" 
    FROM asset a 
    JOIN asset_exif e ON a.id = e." +:+ String Json.dquote
  ("assetId" +:+ String Json.dquote
  (" 
    ORDER BY a." +:+ String Json.dquote
  ("fileCreatedAt" +:+ String Json.dquote
  (" ASC
    ")))))))))))).

(** Lines 77-82: the command line of the inventory query. *)
Definition db_cmd : list string :=
  ["docker"; "exec"; "immich_postgres"; "psql"; "-U"; "postgres";
   "-d"; "immich"; "-t"; "-A"; "-c";
   "SELECT json_agg(t) FROM (" +:+ query +:+ ") t;"].

(** Lines 64-86. [db_rows] is [json.loads(output)] read as asset records. *)
Definition get_assets_from_db (E : env) : M (list asset) :=
  do_ print "Fetching asset list from database...";
  do output <- run_command E db_cmd;
  if String.eqb (Py.strip output) "" then ret []
  else match db_rows E with
       | Ok rows => ret rows
       | Raise e => raise e
       end.

(** Lines 241-269 for one chunk. *)
Definition process_dvd (E : env) (A : args) (d : Packer.dvd) : M unit :=
  let dvd_num := Packer.d_num d in
  let dvd_assets := Packer.d_assets d in
  let dvd_dir := Py.join (backup_dir A) ("DVD_" +:+ Py.str_of_Z dvd_num) in
  let iso_path :=
    Py.join (backup_dir A)
      ("immich_backup_dvd_" +:+ Py.str_of_Z dvd_num +:+ "_" +:+
       Packer.d_start d +:+ "_" +:+ Packer.d_end d +:+ ".iso") in
  do_ (if negb (dry_run A) then makedirs dvd_dir else ret tt);
  do_ run_pool dvd_dir (dry_run A) (use_links A) (threads A)
               (schedule E dvd_num) dvd_assets;
  archive_step E (dry_run A) dvd_dir iso_path.

Fixpoint for_each {X} (body : X -> M unit) (l : list X) : M unit :=
  match l with
  | [] => ret tt
  | x :: rest => do_ body x; for_each body rest
  end.

(** Lines 222-239: [Some] is the list to process, [None] a [return]. *)
Definition select (all_dvds : list Packer.dvd) (choice : string)
  : M (option (list Packer.dvd)) :=
  if String.eqb choice "q" then ret None
  else if String.eqb choice "all" then ret (Some all_dvds)
  else
    match Py.int_of_str choice with
    | Some n =>
        let dvd_idx := n - 1 in
        if (0 <=? dvd_idx) && (dvd_idx <? Z.of_nat (length all_dvds)) then
          match all_dvds !! Z.to_nat dvd_idx with
          | Some d => ret (Some [d])
          | None => raise IndexError
          end
        else do_ print "Invalid DVD number."; ret None
    | None => do_ print "Invalid input."; ret None
    end.

Definition main (E : env) (A : args) : M unit :=
  do_ makedirs (backup_dir A);
  do state <- Tracker.init (arg_state_file A);
  do assets <- get_assets_from_db E;
  if negb (Packer.truthy assets) then print "No assets found in database."
  else
    do all_dvds <-
      match Packer.organize assets (capacity A) with
      | Some l => ret l
      | None => raise IndexError
      end;
    let choice := Py.lower (Py.strip (user_input E)) in
    do to_process <- select all_dvds choice;
    match to_process with
    | None => ret tt
    | Some l =>
        do_ for_each (process_dvd E A) l;
        print (String "010" "Process completed.")
    end.

(** *** A complete run

    Two assets in one chunk, xorriso and mkisofs missing, genisoimage
    installed and working, the user answering [all], and a state file
    left by an earlier run beside the backup directory. *)

Definition demo_env : env :=
  {| which := fun name => String.eqb name "genisoimage";
     proc := fun _ => Some "rows";
     proc_output := fun _ => "iso image";
     proc_stderr := fun _ => EmptyString;
     db_rows := Ok [twin1; twin2];
     user_input := " ALL ";
     schedule := fun _ => alternating |}.

Definition demo_args : args :=
  {| backup_dir := DEFAULT_BACKUP_DIR;
     arg_state_file := DEFAULT_STATE_FILE;
     capacity := DVD_CAPACITY_BYTES;
     dry_run := false;
     use_links := false;
     threads := 4 |}.

Definition demo_world : world :=
  {| fs := <[Tracker.state_path :=
               File true true
                 (Json.dumps (Tracker.record (Tracker.fresh Tracker.state_path)))]>
             twin_fs;
     effects := []; calls := []; stdout := [] |}.

(** ** Further notions for the properties of Part II *)

Module PackerFacts.

Import Packer.

(** The ordinals [1, 2, ..., n]. *)
Definition ordinals (n : nat) : list Z :=
  map (fun i => Z.of_nat i + 1) (seq 0 n).

(** The pairs of neighbours of a list, in order. *)
Fixpoint neighbours {A} (l : list A) : list (A * A) :=
  match l with
  | x :: (y :: _) as rest => (x, y) :: neighbours rest
  | _ => []
  end.

(** The dates of a chunk are those of its first and of its last member. *)
Definition range_ok (d : dvd) : Prop :=
  exists a0 a1,
    head (d_assets d) = Some a0 /\ last (d_assets d) = Some a1 /\
    d_start d = split_T_0 (fileCreatedAt a0) /\
    d_end d = split_T_0 (fileCreatedAt a1).

(** The first member of the later chunk did not fit into the earlier
    one. *)
Definition tight (capacity : Z) (p : dvd * dvd) : Prop :=
  match d_assets (snd p) with
  | a :: _ => capacity < d_size (fst p) + size_or_0 a
  | [] => False
  end.

(** What the sealed chunks and the open one keep across the loop, beside
    [acc_ok]. *)
Definition acc_sealed (capacity : Z) (st : acc) : Prop :=
  map d_num (all_dvds st) = ordinals (length (all_dvds st)) /\
  dvd_num st = Z.of_nat (length (all_dvds st)) + 1 /\
  Forall range_ok (all_dvds st) /\
  Forall (tight capacity) (neighbours (all_dvds st)) /\
  match last (all_dvds st), current_dvd_assets st with
  | Some d, a :: _ => capacity < d_size d + size_or_0 a
  | Some _, [] => False
  | None, _ => True
  end.

End PackerFacts.

(** The place in [dvd_dir] that [copy_asset] settles on for [a] in world
    [w]: the first choice, or the second when the first exists. *)
Definition chosen_target (a : asset) (dvd_dir : string) (w : world) : string :=
  let host_path := host_path_of (originalPath a) in
  if bool_decide (is_Some (fs w !! initial_target a dvd_dir host_path))
  then fallback_target a dvd_dir host_path
  else initial_target a dvd_dir host_path.

(** The asset a worker works for. *)
Definition worker_asset (k : worker) : asset :=
  match k with
  | Queued a | Resolved a _ | Chosen a _ _ | LinkFailed a _ _
  | Finished a _ => a
  end.

(** How far a worker has got. *)
Definition rank (k : worker) : nat :=
  match k with
  | Queued _ => 0
  | Resolved _ _ => 1
  | Chosen _ _ _ => 2
  | LinkFailed _ _ _ => 3
  | Finished _ _ => 4
  end.

(** What a placement from [host_path] to [target_path] that answers
    [success] leaves behind: after [True], the source's file at the
    target, or inside it when the target is a directory, and a silent
    console; after [False], the file system as it was and one error
    line. *)
Definition placed (host_path target_path : string) (success : bool)
    (w w' : world) : Prop :=
  if success then
    stdout w' = stdout w /\
    exists rd wr data p,
      fs w !! host_path = Some (File rd wr data) /\
      (p = target_path \/ p = Py.join target_path (Py.basename host_path)) /\
      fs w' = <[p := File rd wr data]> (fs w)
  else
    fs w' = fs w /\
    exists e, stdout w' = stdout w ++ [error_line host_path target_path e].

(** The calls a placement makes: one copy; or, with [use_links], one
    link, followed by one copy when the link did not succeed. *)
Definition placement_calls (host_path target_path : string)
    (use_links : bool) (l : list effect) : Prop :=
  if use_links
  then l = [Link host_path target_path] \/
       l = [Link host_path target_path; Copy2 host_path target_path]
  else l = [Copy2 host_path target_path].

(** Line 244: the staging directory of a chunk. *)
Definition dvd_dir_of (A : args) (d : Packer.dvd) : string :=
  Py.join (backup_dir A) ("DVD_" +:+ Py.str_of_Z (Packer.d_num d)).

(** Line 245: the archive of a chunk. *)
Definition iso_path_of (A : args) (d : Packer.dvd) : string :=
  Py.join (backup_dir A)
    ("immich_backup_dvd_" +:+ Py.str_of_Z (Packer.d_num d) +:+ "_" +:+
     Packer.d_start d +:+ "_" +:+ Packer.d_end d +:+ ".iso").

(** [m] leaves the file system as it is and makes no file-system or
    process call but such as satisfy [S], whatever its result. *)
Definition still (S : effect -> Prop) {X} (m : M X) : Prop :=
  forall w,
    fs (snd (m w)) = fs w /\
    exists l, effects (snd (m w)) = effects w ++ l /\ Forall S l.

(** The calls of a run before any chunk is worked on: the backup
    directory and the inventory query. *)
Definition preparation (A : args) (e : effect) : Prop :=
  e = Makedirs (backup_dir A) \/ e = Run db_cmd.

(** What [os.path.join] puts before a relative second part. *)
Definition joined_head (a : string) : string :=
  if String.eqb a "" || Py.endswith a "/" then a else a +:+ "/".

(** The arguments of the complete run, with [--dry-run]. *)
Definition dry_args : args :=
  {| backup_dir := DEFAULT_BACKUP_DIR;
     arg_state_file := DEFAULT_STATE_FILE;
     capacity := DVD_CAPACITY_BYTES;
     dry_run := true;
     use_links := false;
     threads := 4 |}.

(** An environment whose database cannot be reached: every program
    started ends with a non-zero exit status. *)
Definition down_env : env :=
  {| which := fun _ => false;
     proc := fun _ => None;
     proc_output := fun _ => EmptyString;
     proc_stderr := fun _ => "Error response from daemon";
     db_rows := Raise JSONDecodeError;
     user_input := "all";
     schedule := fun _ => [] |}.

(** An environment whose database holds no asset: the query prints an
    empty line. *)
Definition empty_env : env :=
  {| which := fun _ => false;
     proc := fun _ => Some (String "010" EmptyString);
     proc_output := fun _ => EmptyString;
     proc_stderr := fun _ => EmptyString;
     db_rows := Raise JSONDecodeError;
     user_input := "all";
     schedule := fun _ => [] |}.

(** The lines of [get_assets_from_db] and [run_command] on the console. *)
Definition fetching_line : string := "Fetching asset list from database...".
Definition command_error_line (cmd : list string) : string :=
  "Error running command: " +:+ Py.join_with " " cmd.
Definition stderr_line (E : env) (cmd : list string) : string :=
  "Stderr: " +:+ proc_stderr E cmd.

(** The one chunk of the complete run. *)
Definition demo_dvd : Packer.dvd :=
  {| Packer.d_num := 1;
     Packer.d_assets := [twin1; twin2];
     Packer.d_size := 20;
     Packer.d_start := "2020-01-01";
     Packer.d_end := "2020-01-02" |}.

(** [m] makes no file-system or process call but such as satisfy [S],
    whatever its result, and a value it returns satisfies [P]. *)
Definition emits (S : effect -> Prop) {X} (P : X -> Prop) (m : M X) : Prop :=
  forall w,
    (exists l, effects (snd (m w)) = effects w ++ l /\ Forall S l) /\
    match fst (m w) with Ok x => P x | Raise _ => True end.





(* ===================================================================== *)
(** * Part II: properties *)
(* ===================================================================== *)

(** ** Bin packer *)

Section PackerProperties.

Import Packer.

Lemma total_size_app l1 l2 : total_size (l1 ++ l2) = total_size l1 + total_size l2.
Proof.
  unfold total_size. induction l1 as [|a l1 IH]; simpl; [reflexivity|].
  rewrite IH. lia.
Qed.

Lemma total_size_snoc l a : total_size (l ++ [a]) = total_size l + size_or_0 a.
Proof. rewrite total_size_app. unfold total_size. simpl. lia. Qed.

Lemma seal_nonempty n cur sz :
  cur <> [] -> exists d, seal n cur sz = Some d /\ d_assets d = cur /\ d_size d = sz /\ d_num d = n.
Proof.
  intros Hne. unfold seal, first_asset, last_asset.
  destruct cur as [|a0 cur]; [congruence|]. simpl.
  destruct (last (a0 :: cur)) as [a1|] eqn:Hl.
  - simpl. eexists. split; [reflexivity|]. simpl. auto.
  - apply last_None in Hl. discriminate.
Qed.

Lemma truthy_true {A} (l : list A) : truthy l = true <-> l <> [].
Proof. destruct l; simpl; split; congruence. Qed.

Lemma pack_step_spec capacity st a :
  acc_ok capacity st ->
  exists st', pack_step capacity st a = Some st' /\
              flat st' = flat st ++ [a] /\
              acc_ok capacity st'.
Proof.
  intros (Hall & Hsz & Hcap). unfold pack_step.
  destruct ((dvd_size st + size_or_0 a >? capacity) && truthy (current_dvd_assets st)) eqn:Hc.
  - apply andb_true_iff in Hc as [Hgt Hne]. apply truthy_true in Hne.
    destruct (seal_nonempty (dvd_num st) _ (dvd_size st) Hne) as (d & -> & Hda & Hds & _).
    simpl. eexists. split; [reflexivity|]. split.
    + unfold flat. simpl. rewrite map_app, concat_app. simpl.
      rewrite Hda, app_nil_r, <- app_assoc. reflexivity.
    + split; [|split]; simpl.
      * apply Forall_app. split; [assumption|]. constructor; [|constructor].
        unfold chunk_ok. rewrite Hda, Hds. split; [|split]; try assumption.
        destruct Hcap as [Hle|Hlen]; [left; assumption|].
        right. destruct (current_dvd_assets st) as [|x [|y l]]; simpl in *; try congruence; lia.
      * unfold total_size. simpl. lia.
      * right. lia.
  - simpl. eexists. split; [reflexivity|]. split.
    + unfold flat. simpl. rewrite app_assoc. reflexivity.
    + split; [|split]; simpl; [assumption| |].
      * rewrite total_size_snoc. lia.
      * apply andb_false_iff in Hc as [Hle|Hemp].
        -- left. lia.
        -- right. destruct (current_dvd_assets st); simpl in *; [lia|discriminate].
Qed.

Lemma pack_loop_spec capacity assets : forall st,
  acc_ok capacity st ->
  exists st', pack_loop capacity st assets = Some st' /\
              flat st' = flat st ++ assets /\
              acc_ok capacity st'.
Proof.
  induction assets as [|a rest IH]; intros st Hok; simpl.
  - exists st. rewrite app_nil_r. auto.
  - destruct (pack_step_spec capacity st a Hok) as (st1 & -> & Hf1 & Hok1).
    simpl. destruct (IH st1 Hok1) as (st2 & -> & Hf2 & Hok2).
    exists st2. split; [reflexivity|]. split; [|assumption].
    rewrite Hf2, Hf1, <- app_assoc. reflexivity.
Qed.

Lemma acc0_ok capacity : acc_ok capacity acc0.
Proof. split; [|split]; simpl; [constructor | reflexivity | right; lia]. Qed.

Lemma organize_spec assets capacity :
  exists dvds, organize assets capacity = Some dvds /\
               concat (map d_assets dvds) = assets /\
               Forall (chunk_ok capacity) dvds.
Proof.
  destruct (pack_loop_spec capacity assets acc0 (acc0_ok capacity)) as (st & Hl & Hf & Hall & Hsz & Hcap).
  unfold organize. rewrite Hl. simpl.
  destruct (truthy (current_dvd_assets st)) eqn:Ht.
  - apply truthy_true in Ht.
    destruct (seal_nonempty (dvd_num st) _ (dvd_size st) Ht) as (d & -> & Hda & Hds & _).
    simpl. eexists. split; [reflexivity|]. split.
    + rewrite map_app, concat_app. simpl. rewrite Hda, app_nil_r. exact Hf.
    + apply Forall_app. split; [assumption|]. constructor; [|constructor].
      unfold chunk_ok. rewrite Hda, Hds. split; [|split]; try assumption.
      destruct Hcap as [Hle|Hlen]; [left; assumption|].
      right. destruct (current_dvd_assets st) as [|x [|y l]]; simpl in *; try congruence; lia.
  - eexists. split; [reflexivity|]. split; [|assumption].
    destruct (current_dvd_assets st) eqn:Hcur; [|discriminate].
    unfold flat in Hf. rewrite Hcur, app_nil_r in Hf. exact Hf.
Qed.

(** In a list of lists whose concatenation has no repeated entry, an entry
    lies in one list only. *)
Lemma concat_NoDup_one_list {A} (ls : list (list A)) (x : A) : forall j j' l l',
  NoDup (concat ls) ->
  ls !! j = Some l -> ls !! j' = Some l' ->
  In x l -> In x l' -> j = j'.
Proof.
  induction ls as [|l0 ls IH]; intros j j' l l' Hnd Hj Hj' Hx Hx'.
  - destruct j; discriminate.
  - simpl in Hnd. apply NoDup_app in Hnd as (_ & Hdisj & Hnd).
    assert (Hin : forall k lk, ls !! k = Some lk -> In x lk -> In x (concat ls)).
    { intros k lk Hk Hxk. apply in_concat. exists lk. split; [|assumption].
      apply list_elem_of_In. eapply list_elem_of_lookup_2; eassumption. }
    destruct j as [|j], j' as [|j']; simpl in Hj, Hj'.
    + reflexivity.
    + injection Hj as <-. exfalso.
      apply (Hdisj x); apply list_elem_of_In; eauto.
    + injection Hj' as <-. exfalso.
      apply (Hdisj x); apply list_elem_of_In; eauto.
    + f_equal. eapply IH; eassumption.
Qed.

(** When the inventory lists no asset twice, an asset is a member of one
    chunk only. *)
Lemma organize_one_chunk assets capacity dvds a j j' d d' :
  NoDup assets ->
  organize assets capacity = Some dvds ->
  dvds !! j = Some d -> dvds !! j' = Some d' ->
  In a (d_assets d) -> In a (d_assets d') -> j = j'.
Proof.
  intros Hnd Horg Hj Hj' Ha Ha'.
  destruct (organize_spec assets capacity) as (dvds0 & Heq & Hcat & _).
  rewrite Horg in Heq. injection Heq as <-.
  rewrite <- Hcat in Hnd.
  apply (concat_NoDup_one_list (map d_assets dvds) a j j'
           (d_assets d) (d_assets d')); try assumption.
  - rewrite list_lookup_fmap, Hj. reflexivity.
  - rewrite list_lookup_fmap, Hj'. reflexivity.
Qed.

(** C1. The chunks the bin packer produces partition its input: for every
    inventory and capacity the packer returns chunks whose member lists,
    concatenated in chunk order, are the input sequence itself, so every
    asset is in one chunk and relative order is kept; no chunk is empty;
    and the empty inventory gives the empty chunk sequence. *)
Theorem packer_partitions_input :
  (forall capacity, organize [] capacity = Some []) /\
  forall assets capacity,
    exists dvds,
      organize assets capacity = Some dvds /\
      concat (map d_assets dvds) = assets /\
      Forall (fun d => d_assets d <> []) dvds.
Proof.
  split; [reflexivity|].
  intros assets capacity.
  destruct (organize_spec assets capacity) as (dvds & Horg & Hcat & Hok).
  exists dvds. split; [assumption|]. split; [assumption|].
  eapply Forall_impl; [exact Hok|]. intros d (Hne & _). exact Hne.
Qed.

(** C2. Every chunk the bin packer produces records as its size the
    cumulative byte size of its members (a null size counting as zero);
    a chunk whose size exceeds the capacity has exactly one member, and a
    chunk of two or more members is within the capacity. *)
Theorem packer_chunks_within_capacity :
  forall assets capacity,
    exists dvds,
      organize assets capacity = Some dvds /\
      Forall (fun d =>
                d_size d = total_size (d_assets d) /\
                (capacity < d_size d -> length (d_assets d) = 1%nat) /\
                ((2 <= length (d_assets d))%nat -> d_size d <= capacity))
             dvds.
Proof.
  intros assets capacity.
  destruct (organize_spec assets capacity) as (dvds & Horg & _ & Hok).
  exists dvds. split; [assumption|].
  eapply Forall_impl; [exact Hok|].
  intros d (_ & Hsz & Hcap). split; [assumption|].
  split; intros H; destruct Hcap as [Hle|Hone]; lia.
Qed.

(** The three examples of the specification. *)
Example organize_three_singletons :
  shape (organize (map sized [3000; 3000; 3000]) 5000)
    = Some [(1, [3000]); (2, [3000]); (3, [3000])].
Proof. reflexivity. Qed.

Example organize_one_chunk_of_three :
  shape (organize (map sized [1000; 1000; 1000]) 5000)
    = Some [(1, [1000; 1000; 1000])].
Proof. reflexivity. Qed.

Example organize_oversized_alone :
  shape (organize (map sized [9000]) 5000) = Some [(1, [9000])].
Proof. reflexivity. Qed.

(** A null size counts as zero, and its asset is still a member. *)
Example organize_null_size :
  option_map (map (fun d => (d_size d, length (d_assets d))))
    (organize [sized 4000;
               {| id := "n"; originalPath := "p"; originalFileName := "f";
                  fileCreatedAt := "2021-05-05T00:00:00.000Z";
                  fileSizeInByte := None |};
               sized 2000] 5000)
    = Some [(4000, 2%nat); (2000, 1%nat)].
Proof. reflexivity. Qed.

End PackerProperties.

(** ** Paths and file names *)

Section PathProperties.

Import Py.

Lemma length_app_str (s t : string) :
  String.length (s +:+ t) = (String.length s + String.length t)%nat.
Proof. induction s as [|c s IH]; simpl; [reflexivity|]. rewrite IH. reflexivity. Qed.

Lemma length_lower s : String.length (lower s) = String.length s.
Proof. induction s as [|c s IH]; simpl; congruence. Qed.

Lemma lower_app s t : lower (s +:+ t) = lower s +:+ lower t.
Proof. induction s as [|c s IH]; simpl; [reflexivity|]. rewrite IH. reflexivity. Qed.

Lemma take_drop_str n s : take n s +:+ drop n s = s.
Proof.
  revert s. induction n as [|n IH]; intros [|c s]; try reflexivity.
  change (String c (take n s +:+ drop n s) = String c s).
  f_equal. apply IH.
Qed.

Lemma drop_lower n s : drop n (lower s) = lower (drop n s).
Proof. revert s. induction n as [|n IH]; intros [|c s]; simpl; auto. Qed.

Lemma drop_app_length s t : drop (String.length s) (s +:+ t) = t.
Proof. induction s as [|c s IH]; simpl; [destruct t; reflexivity|assumption]. Qed.

Lemma length_drop n s : String.length (drop n s) = (String.length s - n)%nat.
Proof. revert s. induction n as [|n IH]; intros [|c s]; simpl; auto. Qed.

Lemma ci_eq_lower s t : ci_eq s t <-> lower s = lower t.
Proof.
  split.
  - induction 1 as [|c d s t Hc _ IH]; simpl; congruence.
  - revert t. induction s as [|c s IH]; intros [|d t] H; simpl in H;
      try discriminate; [constructor|].
    injection H as Hc Hs. constructor; auto.
Qed.

Lemma ci_eq_length s t : ci_eq s t -> String.length s = String.length t.
Proof. induction 1; simpl; congruence. Qed.

(** The script's test, [name.lower().endswith(ext.lower())], decides
    whether the name ends with the extension when case is ignored. *)
Lemma endswith_lower_iff name ext :
  endswith (lower name) (lower ext) = true <-> ends_with_ci name ext.
Proof.
  unfold endswith, ends_with_ci. rewrite !length_lower, andb_true_iff.
  rewrite Nat.leb_le, String.eqb_eq, drop_lower. split.
  - intros [Hle Heq].
    exists (take (String.length name - String.length ext) name),
           (drop (String.length name - String.length ext) name).
    split; [symmetry; apply take_drop_str|]. apply ci_eq_lower. exact Heq.
  - intros (stem & tail & -> & Hci).
    pose proof (ci_eq_length _ _ Hci) as Hlen.
    rewrite length_app_str. split; [lia|].
    replace (String.length stem + String.length tail - String.length ext)%nat
      with (String.length stem) by lia.
    rewrite drop_app_length. apply ci_eq_lower. exact Hci.
Qed.

Lemma app_empty_r (s : string) : s +:+ "" = s.
Proof.
  induction s as [|c s IH]; [reflexivity|].
  change (String c (s +:+ "") = String c s). f_equal. exact IH.
Qed.





End PathProperties.

(** ** Running computations *)

(** Unfolds the monad's operations in the goal. *)
Ltac run := unfold bind, ret, raise, try_except, get_fs, set_fs, log_effect,
                   log_call, print, with_fs, with_effect, with_call,
                   with_line; simpl.


(** ** Materializer *)

Section MaterializerProperties.

(** Replacing the leftmost occurrence of a prefix rewrites the prefix. *)
Lemma replace1_prefix old new s :
  Py.startswith s old = true ->
  Py.replace1 old new s = new +:+ Py.drop (String.length old) s.
Proof.
  unfold Py.startswith. intros H.
  destruct s as [|c s]; cbn [Py.replace1]; rewrite H; reflexivity.
Qed.

Lemma host_path_of_rewritten container_path :
  Py.startswith container_path CONTAINER_UPLOAD_PATH = true ->
  host_path_of container_path = rewritten container_path.
Proof. apply replace1_prefix. Qed.

Lemma copy_asset_dry_run a dvd_dir use_links w :
  copy_asset a dvd_dir true use_links w = (Ok (resolves a w), w).
Proof.
  unfold copy_asset, resolves.
  destruct (Py.startswith (originalPath a) CONTAINER_UPLOAD_PATH) eqn:Hp;
    [|reflexivity].
  rewrite (host_path_of_rewritten _ Hp).
  unfold bind, path_exists, get_fs, ret. simpl.
  destruct (bool_decide (is_Some (fs w !! rewritten (originalPath a))));
    reflexivity.
Qed.

Lemma copy_asset_unresolved a dvd_dir dry_run use_links w :
  resolves a w = false ->
  copy_asset a dvd_dir dry_run use_links w = (Ok false, w).
Proof.
  unfold copy_asset, resolves.
  destruct (Py.startswith (originalPath a) CONTAINER_UPLOAD_PATH) eqn:Hp;
    [|reflexivity].
  rewrite (host_path_of_rewritten _ Hp). simpl. intros Hr.
  unfold bind, path_exists, get_fs, ret. simpl. rewrite Hr. reflexivity.
Qed.

Lemma worker_step_dry w a k dvd_dir use_links :
  dry_state w a k ->
  exists k', worker_step dvd_dir true use_links k w = (Ok k', w) /\
             dry_state w a k' /\ started k' = true /\
             (started k = true -> k' = Finished a (resolves a w)).
Proof.
  unfold dry_state. intros [->|[[-> Hr]| ->]]; simpl.
  - unfold resolves in *.
    destruct (Py.startswith (originalPath a) CONTAINER_UPLOAD_PATH) eqn:Hp.
    + rewrite (host_path_of_rewritten _ Hp).
      unfold bind, path_exists, get_fs, ret. simpl.
      destruct (bool_decide (is_Some (fs w !! rewritten (originalPath a))));
        simpl; eexists; (split; [reflexivity|]);
        (split; [auto|]); (split; [reflexivity|discriminate]).
    + simpl. eexists. split; [reflexivity|].
      split; [auto|]. split; [reflexivity|discriminate].
  - unfold bind, path_exists, get_fs, ret. simpl.
    eexists. split; [reflexivity|]. rewrite Hr. auto.
  - eexists. split; [reflexivity|]. auto.
Qed.

Lemma worker_finish_dry w a k dvd_dir use_links :
  dry_state w a k ->
  worker_finish dvd_dir true use_links k w = (Ok (Finished a (resolves a w)), w).
Proof.
  intros Hk. unfold worker_finish, bind.
  destruct (worker_step_dry w a k dvd_dir use_links Hk) as (k1 & -> & Hk1 & Hs1 & _).
  destruct (worker_step_dry w a k1 dvd_dir use_links Hk1) as (k2 & -> & Hk2 & _ & H2).
  specialize (H2 Hs1). subst k2.
  destruct (worker_step_dry w a _ dvd_dir use_links Hk2) as (k3 & -> & Hk3 & _ & H3).
  specialize (H3 eq_refl). subst k3.
  destruct (worker_step_dry w a _ dvd_dir use_links Hk3) as (k4 & -> & _ & _ & H4).
  rewrite (H4 eq_refl). reflexivity.
Qed.

Lemma run_schedule_dry w dvd_dir use_links threads sched : forall assets ws,
  Forall2 (dry_state w) assets ws ->
  exists ws', run_schedule dvd_dir true use_links threads sched ws w = (Ok ws', w) /\
              Forall2 (dry_state w) assets ws'.
Proof.
  induction sched as [|i sched IH]; intros assets ws Hws; simpl.
  - exists ws. split; [reflexivity|assumption].
  - destruct (ws !! i) as [k|] eqn:Hi; [|apply IH; assumption].
    destruct (may_step threads ws i); [|apply IH; assumption].
    destruct (Forall2_lookup_r _ _ _ _ _ Hws Hi) as (a & Ha & Hk).
    destruct (worker_step_dry w a k dvd_dir use_links Hk) as (k' & Hstep & Hk' & _).
    unfold bind. rewrite Hstep. apply IH.
    rewrite <- (list_insert_id assets i a Ha).
    apply Forall2_insert; assumption.
Qed.

Lemma drain_dry w dvd_dir use_links : forall assets ws,
  Forall2 (dry_state w) assets ws ->
  drain dvd_dir true use_links ws w =
    (Ok (map (fun a => Finished a (resolves a w)) assets), w).
Proof.
  induction 1 as [|a k assets ws Hk _ IH]; simpl; [reflexivity|].
  unfold bind. rewrite (worker_finish_dry w a k dvd_dir use_links Hk).
  rewrite IH. reflexivity.
Qed.

(** A dry run of the pool, whatever the schedule: every asset is answered
    by whether its source resolves, and the world is as before. *)
Lemma run_pool_dry_run w dvd_dir use_links threads sched assets :
  0 < threads ->
  run_pool dvd_dir true use_links threads sched assets w =
    (Ok (map (fun a => Finished a (resolves a w)) assets), w).
Proof.
  intros Ht. unfold run_pool.
  destruct (threads <=? 0) eqn:Hle; [lia|].
  assert (H0 : Forall2 (dry_state w) assets (map Queued assets)).
  { induction assets; constructor; [left; reflexivity|assumption]. }
  destruct (run_schedule_dry w dvd_dir use_links threads sched _ _ H0)
    as (ws' & Hrun & Hws').
  unfold bind. rewrite Hrun. apply drain_dry. exact Hws'.
Qed.

(** C7. In dry-run mode [copy_asset] leaves the world as it found it (no
    file system change, no call that could make one, nothing printed) and
    answers success exactly for the assets whose source path starts with
    the container prefix and whose rewritten host path exists; in either
    mode an asset that fails one of the two conditions is answered with
    failure, the world untouched; and a dry run of the whole pool, under
    any schedule, leaves the world untouched as well. *)
Theorem copy_asset_dry_run_writes_nothing :
  forall (a : asset) (dvd_dir : string) (use_links : bool) (w : world),
    copy_asset a dvd_dir true use_links w = (Ok (resolves a w), w) /\
    (resolves a w = false ->
     forall dry_run,
       copy_asset a dvd_dir dry_run use_links w = (Ok false, w)) /\
    (forall threads sched dvd_assets,
       0 < threads ->
       run_pool dvd_dir true use_links threads sched dvd_assets w =
         (Ok (map (fun a => Finished a (resolves a w)) dvd_assets), w)).
Proof.
  intros a dvd_dir use_links w. split; [|split].
  - apply copy_asset_dry_run.
  - intros Hr dry_run. apply copy_asset_unresolved. exact Hr.
  - intros threads sched dvd_assets Ht. apply run_pool_dry_run. exact Ht.
Qed.

Lemma copy_asset_dry_run_writes_nothing_witness :
  resolves stray twin_world = false /\
  copy_asset stray "./immich_backups/DVD_1" false true twin_world
    = (Ok false, twin_world) /\
  run_pool "./immich_backups/DVD_1" true true 4 alternating
           [twin1; stray; twin2] twin_world
    = (Ok [Finished twin1 true; Finished stray false; Finished twin2 true],
       twin_world).
Proof.
  pose proof (copy_asset_dry_run_writes_nothing
                stray "./immich_backups/DVD_1" true twin_world)
    as (_ & Hskip & Hpool).
  split; [reflexivity|]. split.
  - apply Hskip. reflexivity.
  - rewrite (Hpool 4 alternating [twin1; stray; twin2]) by lia.
    reflexivity.
Defined.

End MaterializerProperties.

Local Opaque os_link copy2.

(** A worker that is never preempted does what [copy_asset] does: the
    steps of the pool are the calls of the function, one by one. *)
Lemma worker_finish_copy_asset a dvd_dir dry_run use_links w :
  worker_finish dvd_dir dry_run use_links (Queued a) w
    = (match fst (copy_asset a dvd_dir dry_run use_links w) with
       | Ok success => Ok (Finished a success)
       | Raise e => Raise e
       end,
       snd (copy_asset a dvd_dir dry_run use_links w)).
Proof.
  unfold worker_finish, copy_asset, place.
  cbn [worker_step]. cbv zeta.
  destruct (Py.startswith (originalPath a) CONTAINER_UPLOAD_PATH).
  2: { reflexivity. }
  unfold path_exists; unfold bind, try_except, get_fs, ret, print, Exception.
  destruct (bool_decide (is_Some (fs w !! host_path_of (originalPath a)))).
  2: { reflexivity. }
  cbn [negb worker_step]. cbv zeta.
  unfold path_exists; unfold bind, try_except, get_fs, ret, print, Exception.
  set (target := if bool_decide _ then _ else _).
  destruct dry_run; cbn [worker_step]; [reflexivity|].
  unfold bind, try_except, ret, print, Exception.
  destruct use_links.
  - destruct (os_link _ target w) as [[[]|e] w1]; cbn [worker_step fst snd];
      [reflexivity|].
    unfold bind, try_except, ret, print, Exception.
    destruct (is_OSError e); cbn [worker_step fst snd]; [|reflexivity].
    unfold bind, try_except, ret, print, Exception.
    destruct (copy2 _ target w1) as [[[]|e2] w2]; reflexivity.
  - destruct (copy2 _ target w) as [[[]|e2] w2]; reflexivity.
Qed.

Local Transparent os_link copy2.

(** ** The race between two workers *)

(** C5. The collision check does not hold under concurrency: with two
    assets of one display name in a chunk, and each worker preempted
    between its existence check and its copy, both workers report
    success, both copies go to the same path, the first asset's file is
    overwritten by the second's, and the name with the identifier is
    never used. *)
Theorem pool_race_overwrites :
  let r := run_pool "./immich_backups/DVD_1" false false 4 alternating
                    [twin1; twin2] twin_world in
  fst r = Ok [Finished twin1 true; Finished twin2 true] /\
  placements (effects (snd r)) =
    ["./immich_backups/DVD_1/IMG_0001.jpg";
     "./immich_backups/DVD_1/IMG_0001.jpg"] /\
  fs (snd r) !! "./immich_backups/DVD_1/IMG_0001.jpg"
    = Some (File true true "two") /\
  fs (snd r) !! "./immich_backups/DVD_1/IMG_0001_B2.jpg" = None /\
  ~ NoDup (placements (effects (snd r))).
Proof.
  vm_compute. repeat split.
  intros H. inversion H as [|x l Hx _]; subst. apply Hx. constructor.
Qed.

(** The second choice of name is not checked at all: with one thread and
    no preemption, an asset whose display name is another's fallback name
    loses its file to it. *)
Lemma fallback_name_overwrites :
  let r := run_pool "./immich_backups/DVD_1" false false 1 []
                    [twin1; namesake; twin2] namesake_world in
  fst r = Ok [Finished twin1 true; Finished namesake true;
              Finished twin2 true] /\
  placements (effects (snd r)) =
    ["./immich_backups/DVD_1/IMG_0001.jpg";
     "./immich_backups/DVD_1/IMG_0001_B2.jpg";
     "./immich_backups/DVD_1/IMG_0001_B2.jpg"] /\
  fs (snd r) !! "./immich_backups/DVD_1/IMG_0001_B2.jpg"
    = Some (File true true "two").
Proof. vm_compute. repeat split. Qed.

(** ** Archive builder *)

Section ArchiveProperties.

Variable E : env.

(** What a failing program leaves behind: its call in the log, two lines
    on the console. *)
Lemma run_command_fails cmd w :
  proc E cmd = None ->
  exists w', run_command E cmd w = (Raise CalledProcessError, w') /\
             fs w' = fs w /\ effects w' = effects w ++ [Run cmd] /\
             calls w' = calls w.
Proof.
  intros Hp. unfold run_command, subprocess_run. run. rewrite Hp. simpl.
  eexists. split; [reflexivity|]. simpl. auto.
Qed.

(** A program that succeeds: its call in the log, and the file its [-o]
    option names written. *)
Lemma run_command_succeeds cmd out w :
  proc E cmd = Some out ->
  exists w', run_command E cmd w = (Ok out, w') /\
             fs w' = match output_arg cmd with
                     | Some p => <[p := File true true (proc_output E cmd)]> (fs w)
                     | None => fs w
                     end /\
             effects w' = effects w ++ [Run cmd] /\
             calls w' = calls w /\ stdout w' = stdout w.
Proof.
  intros Hp. unfold run_command, subprocess_run. run. rewrite Hp.
  destruct (output_arg cmd); simpl; eexists; (split; [reflexivity|]); simpl; auto.
Qed.

Lemma installed_cons_true cmd tools :
  which E (program cmd) = true ->
  installed E (cmd :: tools) = cmd :: installed E tools.
Proof.
  intros H. unfold installed. rewrite filter_cons. rewrite decide_True by exact H.
  reflexivity.
Qed.

Lemma installed_cons_false cmd tools :
  which E (program cmd) = false ->
  installed E (cmd :: tools) = installed E tools.
Proof.
  intros H. unfold installed. rewrite filter_cons.
  rewrite decide_False by (rewrite H; discriminate). reflexivity.
Qed.

Lemma installed_app l1 l2 : installed E (l1 ++ l2) = installed E l1 ++ installed E l2.
Proof. unfold installed. apply filter_app. Qed.

Lemma try_tools_spec iso_path tools : forall w,
  exists created w',
    try_tools E iso_path tools w = (Ok created, w') /\
    tried E tools w w' created /\ calls w' = calls w.
Proof.
  induction tools as [|cmd rest IH]; intros w.
  - simpl. run. eexists _, _. split; [reflexivity|]. split; [|reflexivity].
    right. simpl. rewrite app_nil_r. auto.
  - cbn [try_tools].
    destruct (which E (program cmd)) eqn:Hw.
    + destruct (proc E cmd) as [out|] eqn:Hp.
      * destruct (run_command_succeeds cmd out w Hp)
          as (w1 & Hrun & Hfs & Heff & Hcalls & _).
        unfold bind at 1. unfold try_except. unfold bind at 1. rewrite Hrun.
        run. eexists _, _. split; [reflexivity|]. simpl.
        split; [|assumption]. left. split; [reflexivity|].
        exists [], cmd, rest. simpl. rewrite Heff. repeat split; eauto.
      * destruct (run_command_fails cmd w Hp) as (w1 & Hrun & Hfs & Heff & Hcalls).
        unfold bind at 1. unfold try_except. unfold bind at 1. rewrite Hrun.
        unfold Exception. run.
        match goal with |- context [try_tools E iso_path rest ?w2] =>
          destruct (IH w2) as (created & w' & -> & Htried & Hc) end.
        simpl in *. eexists _, _. split; [reflexivity|].
        split; [|congruence].
        destruct Htried as [(-> & before & c & after & -> & Hun & Hwc & Hpc & He)
                           |(-> & Hun & He & Hf)].
        -- left. split; [reflexivity|].
           exists (cmd :: before), c, after. simpl.
           rewrite installed_cons_true by assumption.
           repeat split; try assumption.
           ++ constructor; [right; assumption|assumption].
           ++ rewrite He. simpl. rewrite Heff, <- app_assoc. reflexivity.
        -- right. split; [reflexivity|].
           rewrite installed_cons_true by assumption.
           repeat split.
           ++ constructor; [right; assumption|assumption].
           ++ rewrite He. simpl. rewrite Heff, <- app_assoc. reflexivity.
           ++ rewrite Hf. simpl. assumption.
    + destruct (IH w) as (created & w' & -> & Htried & Hc).
      eexists _, _. split; [reflexivity|]. split; [|assumption].
      destruct Htried as [(-> & before & c & after & -> & Hun & Hwc & Hpc & He)
                         |(-> & Hun & He & Hf)].
      * left. split; [reflexivity|].
        exists (cmd :: before), c, after. simpl.
        rewrite installed_cons_false by assumption.
        repeat split; try assumption.
        constructor; [left; assumption|assumption].
      * right. split; [reflexivity|].
        rewrite installed_cons_false by assumption.
        repeat split; try assumption.
        constructor; [left; assumption|assumption].
Qed.

Lemma create_iso_spec source_dir iso_path w :
  exists created w',
    create_iso E source_dir iso_path w = (Ok created, w') /\
    tried E (iso_tools source_dir iso_path) w w' created /\
    calls w' = calls w.
Proof.
  unfold create_iso. unfold bind at 1. unfold print at 1.
  match goal with |- context [try_tools E iso_path ?tools ?w0] =>
    destruct (try_tools_spec iso_path tools w0) as (created & w' & -> & Ht & Hc)
  end.
  exists created, w'. split; [reflexivity|]. split; [exact Ht|exact Hc].
Qed.

Lemma rmtree_effects p w :
  effects (snd (rmtree p w)) = effects w ++ [Rmtree p].
Proof.
  unfold rmtree. run. destruct (fs w !! p) as [[|r wr data]|]; reflexivity.
Qed.

End ArchiveProperties.

(** C6. [create_iso] goes through xorriso, genisoimage and mkisofs in that
    order, starts those that are installed and stops at the first that
    succeeds; when no candidate is installed or every started one fails it
    answers [False] with the file system as it was. The caller removes the
    staging directory only after [True]: after [False] it does nothing
    more, and in dry-run mode it does nothing at all. *)
Theorem create_iso_stops_at_first_success :
  forall (E : env) (dvd_dir iso_path : string) (w : world),
    map program (iso_tools dvd_dir iso_path)
      = ["xorriso"; "genisoimage"; "mkisofs"] /\
    archive_step E true dvd_dir iso_path w = (Ok tt, w) /\
    exists created w1,
      create_iso E dvd_dir iso_path w = (Ok created, w1) /\
      tried E (iso_tools dvd_dir iso_path) w w1 created /\
      let w2 := snd (archive_step E false dvd_dir iso_path w) in
      if created
      then effects w2 = effects w1 ++ [Rmtree dvd_dir]
      else w2 = w1 /\ fs w2 = fs w.
Proof.
  intros E dvd_dir iso_path w.
  split; [reflexivity|]. split; [reflexivity|].
  destruct (create_iso_spec E dvd_dir iso_path w) as (created & w1 & Hc & Ht & _).
  exists created, w1. split; [exact Hc|]. split; [exact Ht|].
  assert (Hstep : archive_step E false dvd_dir iso_path w =
                  if created
                  then (do_ print ("Cleaning up temporary directory "
                                   +:+ dvd_dir +:+ "...");
                        rmtree dvd_dir) w1
                  else (Ok tt, w1)).
  { unfold archive_step. cbn [negb]. unfold bind at 1. rewrite Hc.
    destruct created; reflexivity. }
  cbv zeta. rewrite Hstep. destruct created.
  - unfold bind, print. rewrite rmtree_effects. reflexivity.
  - simpl. split; [reflexivity|].
    destruct Ht as [(Hf & _)|(_ & _ & _ & Hfs)]; [discriminate|exact Hfs].
Qed.

(** ** JSON: reading back what was written *)

Section JsonProperties.

Import Json.

Lemma app_assoc_str (s t u : string) : (s +:+ t) +:+ u = s +:+ (t +:+ u).
Proof.
  induction s as [|c s IH]; [reflexivity|].
  change (String c ((s +:+ t) +:+ u) = String c (s +:+ t +:+ u)).
  f_equal. exact IH.
Qed.

(** One escaped character reads back as the character. *)
Lemma scanstring_escape_char c r :
  scanstring (escape_char c +:+ r) = cons_char c (scanstring r).
Proof.
  destruct c as [[] [] [] [] [] [] [] []]; reflexivity.
Qed.

Lemma scanstring_escape s rest :
  scanstring (escape s +:+ String dquote rest) = Some (s, rest).
Proof.
  induction s as [|c s IH]; [reflexivity|].
  cbn [escape]. rewrite app_assoc_str, scanstring_escape_char, IH.
  reflexivity.
Qed.

Lemma span_digits_no_digit rest :
  no_digit_next rest -> span_digits rest = (EmptyString, rest).
Proof. destruct rest as [|c r]; simpl; [reflexivity|]. intros ->. reflexivity. Qed.

Lemma span_digits_uint d rest :
  no_digit_next rest ->
  span_digits (NilEmpty.string_of_uint d +:+ rest)
    = (NilEmpty.string_of_uint d, rest).
Proof.
  intros Hr.
  induction d as [|d IH|d IH|d IH|d IH|d IH|d IH|d IH|d IH|d IH|d IH];
    [apply span_digits_no_digit; exact Hr|..];
    cbn [NilEmpty.string_of_uint];
    change (String ?c ?s +:+ rest) with (String c (s +:+ rest));
    cbn [span_digits]; rewrite IH; reflexivity.
Qed.

(** The decimal digits of a positive number start with a digit that is
    not zero. *)
Lemma to_uint_not_D0 p d : Pos.to_uint p <> D0 d.
Proof.
  intros H.
  pose proof (DecimalPos.Unsigned.to_of (Pos.to_uint p)) as Hn.
  rewrite DecimalPos.Unsigned.of_to in Hn. simpl in Hn.
  rewrite H in Hn. rewrite unorm_D0 in Hn. unfold unorm in Hn.
  destruct (nzhead d) eqn:Hd; try discriminate.
  - injection Hn as ->.
    apply (DecimalPos.Unsigned.to_uint_nonzero p). exact H.
  - eapply nzhead_nonzero. exact Hd.
Qed.

Lemma to_uint_head p :
  exists c s, NilEmpty.string_of_uint (Pos.to_uint p) = String c s /\
              is_digit c = true /\ Ascii.eqb c "0" = false /\
              Ascii.eqb c "-" = false.
Proof.
  pose proof (to_uint_not_D0 p) as H0.
  pose proof (DecimalPos.Unsigned.to_uint_nonnil p) as Hn.
  destruct (Pos.to_uint p) as [|d|d|d|d|d|d|d|d|d|d];
    [congruence | exfalso; eapply H0; reflexivity | ..];
    cbn [NilEmpty.string_of_uint]; eexists _, _;
    (split; [reflexivity|]); repeat split.
Qed.

Lemma str_of_Z_pos p :
  Py.str_of_Z (Z.pos p) = NilEmpty.string_of_uint (Pos.to_uint p).
Proof.
  unfold Py.str_of_Z. simpl.
  pose proof (DecimalPos.Unsigned.to_uint_nonnil p) as Hn.
  destruct (Pos.to_uint p); [congruence|reflexivity..].
Qed.

Lemma str_of_Z_neg p :
  Py.str_of_Z (Z.neg p)
    = String "-" (NilEmpty.string_of_uint (Pos.to_uint p)).
Proof.
  unfold Py.str_of_Z. simpl.
  pose proof (DecimalPos.Unsigned.to_uint_nonnil p) as Hn.
  destruct (Pos.to_uint p); [congruence|reflexivity..].
Qed.

(** [int] reads back what [str] wrote. *)
Lemma int_of_literal_str n : int_of_literal (Py.str_of_Z n) = Some n.
Proof.
  unfold int_of_literal, Py.str_of_Z.
  rewrite NilZero.isi.
  - simpl. rewrite DecimalZ.of_to. reflexivity.
  - destruct n as [|p|p]; simpl; try discriminate.
    intros [= H]. exact (DecimalPos.Unsigned.to_uint_nonnil p H).
  - destruct n as [|p|p]; simpl; try discriminate.
    intros [= H]. exact (DecimalPos.Unsigned.to_uint_nonnil p H).
Qed.

Lemma ends_number_no_digit rest : ends_number rest -> no_digit_next rest.
Proof. destruct rest; simpl; [auto|]. intros (H & _). exact H. Qed.

Lemma frac_part_none rest : ends_number rest -> frac_part rest = (EmptyString, rest).
Proof.
  destruct rest as [|c r]; simpl; [reflexivity|].
  intros (_ & -> & _). reflexivity.
Qed.

Lemma exp_part_none rest : ends_number rest -> exp_part rest = (EmptyString, rest).
Proof.
  destruct rest as [|c r]; simpl; [reflexivity|].
  intros (_ & _ & -> & ->). reflexivity.
Qed.

Lemma int_part_pos p rest :
  no_digit_next rest ->
  int_part (NilEmpty.string_of_uint (Pos.to_uint p) +:+ rest)
    = Some (NilEmpty.string_of_uint (Pos.to_uint p), rest).
Proof.
  intros Hr. rewrite <- (span_digits_uint (Pos.to_uint p) rest Hr).
  destruct (to_uint_head p) as (c & s & -> & Hd & Hz & _).
  change (String c s +:+ rest) with (String c (s +:+ rest)).
  unfold int_part. rewrite Hz, Hd. reflexivity.
Qed.

(** The number lexer reads back an integer that [dumps] wrote, when what
    follows cannot continue a number. *)
Lemma lex_number_str n rest :
  ends_number rest ->
  lex_number (Py.str_of_Z n +:+ rest) = Some (PInt n, rest).
Proof.
  intros Hr. pose proof (ends_number_no_digit rest Hr) as Hnd.
  pose proof (int_of_literal_str n) as Hint.
  destruct n as [|p|p].
  - change (Py.str_of_Z 0) with "0".
    change ("0" +:+ rest) with (String "0" rest).
    unfold lex_number. cbn [Ascii.eqb Bool.eqb int_part].
    rewrite (frac_part_none rest Hr), (exp_part_none rest Hr). reflexivity.
  - rewrite str_of_Z_pos in *.
    unfold lex_number.
    destruct (to_uint_head p) as (c & s & Hs & Hd & Hz & Hm).
    rewrite Hs at 1.
    change (String c s +:+ rest) with (String c (s +:+ rest)).
    cbv beta match. rewrite Hm.
    rewrite (int_part_pos p rest Hnd).
    rewrite (frac_part_none rest Hr), (exp_part_none rest Hr).
    change (EmptyString +:+ ?x) with x. rewrite Hint. reflexivity.
  - rewrite str_of_Z_neg in *.
    change (String "-" ?s +:+ rest) with (String "-" (s +:+ rest)).
    unfold lex_number. cbn [Ascii.eqb Bool.eqb].
    rewrite (int_part_pos p rest Hnd).
    rewrite (frac_part_none rest Hr), (exp_part_none rest Hr).
    change ("-" +:+ ?x) with (String "-" x). rewrite Hint. reflexivity.
Qed.

Lemma prefix_empty s : String.prefix EmptyString s = true.
Proof. destruct s; reflexivity. Qed.

Lemma drop_0 s : Py.drop 0 s = s.
Proof. destruct s; reflexivity. Qed.

(** A text that starts like a number and lexes as one is read as that
    number. *)
Lemma parse_value_numeric n c s r :
  is_digit c || Ascii.eqb c "-" = true ->
  lex_number (String c s) = Some r ->
  parse_value (S n) (String c s) = Some r.
Proof.
  intros Hc Hl.
  destruct c as [[] [] [] [] [] [] [] []]; try discriminate Hc;
    cbn [parse_value]; cbv [first_some keyword];
    cbn [Ascii.eqb Bool.eqb dquote String.prefix]; rewrite Hl; reflexivity.
Qed.

Lemma digit_not_ws c : is_digit c = true -> is_ws c = false.
Proof. destruct c as [[] [] [] [] [] [] [] []]; try discriminate; reflexivity. Qed.

(** The text of a scalar starts with a character that is not white
    space. *)
Lemma dumps_scalar_head v :
  scalar v -> exists c s, dumps v = String c s /\ is_ws c = false.
Proof.
  destruct v as [|[]|n| |t| |]; simpl; try contradiction; intros _;
    try (eexists _, _; split; reflexivity).
  destruct n as [|p|p].
  - eexists _, _; split; reflexivity.
  - rewrite str_of_Z_pos.
    destruct (to_uint_head p) as (c & s & -> & Hd & _).
    eexists _, _. split; [reflexivity|]. apply digit_not_ws. exact Hd.
  - rewrite str_of_Z_neg. eexists _, _; split; reflexivity.
Qed.

Lemma skip_ws_head c s : is_ws c = false -> skip_ws (String c s) = String c s.
Proof. intros H. cbn [skip_ws]. rewrite H. reflexivity. Qed.

Lemma skip_ws_scalar v rest :
  scalar v -> skip_ws (dumps v +:+ rest) = dumps v +:+ rest.
Proof.
  intros Hv. destruct (dumps_scalar_head v Hv) as (c & s & -> & Hc).
  apply skip_ws_head. exact Hc.
Qed.

(** A scalar that [dumps] wrote is read back, and reading stops at its
    end. *)
Lemma parse_value_scalar n v rest :
  scalar v -> ends_number rest ->
  parse_value (S n) (dumps v +:+ rest) = Some (v, rest).
Proof.
  intros Hv Hr. destruct v as [|[]|z| |t| |]; simpl in Hv; try contradiction.
  - cbn [dumps]. change ("null" +:+ rest)
      with (String "n" (String "u" (String "l" (String "l" rest)))).
    cbn [parse_value]. cbv [first_some keyword].
    cbn [Ascii.eqb Bool.eqb dquote String.prefix String.length Py.drop].
    rewrite prefix_empty. reflexivity.
  - cbn [dumps]. change ("true" +:+ rest)
      with (String "t" (String "r" (String "u" (String "e" rest)))).
    cbn [parse_value]. cbv [first_some keyword].
    cbn [Ascii.eqb Bool.eqb dquote String.prefix String.length Py.drop].
    rewrite prefix_empty. reflexivity.
  - cbn [dumps]. change ("false" +:+ rest)
      with (String "f" (String "a" (String "l" (String "s" (String "e" rest))))).
    cbn [parse_value]. cbv [first_some keyword].
    cbn [Ascii.eqb Bool.eqb dquote String.prefix String.length Py.drop].
    rewrite prefix_empty. reflexivity.
  - cbn [dumps]. pose proof (lex_number_str z rest Hr) as Hl.
    destruct z as [|p|p].
    + apply parse_value_numeric; [reflexivity|exact Hl].
    + rewrite str_of_Z_pos in *.
      destruct (to_uint_head p) as (c & s & Hs & Hd & _).
      rewrite Hs in *.
      apply parse_value_numeric; [rewrite Hd; reflexivity|exact Hl].
    + rewrite str_of_Z_neg in *.
      apply parse_value_numeric; [reflexivity|exact Hl].
  - cbn [dumps]. unfold quote.
    change (String dquote ?a +:+ rest) with (String dquote (a +:+ rest)).
    rewrite app_assoc_str.
    change (String dquote EmptyString +:+ rest) with (String dquote rest).
    cbn [parse_value]. cbn [Ascii.eqb Bool.eqb dquote].
    fold dquote. rewrite scanstring_escape. reflexivity.
Qed.

Lemma member_shape k v X :
  quote k +:+ ": " +:+ dumps v +:+ X
    = String dquote
        (escape k +:+ String dquote (String ":" (String " " (dumps v +:+ X)))).
Proof.
  unfold quote.
  change (String dquote ?a +:+ ?b) with (String dquote (a +:+ b)).
  rewrite app_assoc_str. reflexivity.
Qed.

Lemma parse_members_unfold n acc c r :
  parse_members (S n) acc (String c r)
    = if Ascii.eqb c dquote then
        match scanstring r with
        | None => None
        | Some (key, r1) =>
            match skip_ws r1 with
            | EmptyString => None
            | String c2 r2 =>
                if Ascii.eqb c2 ":" then
                  match parse_value n (skip_ws r2) with
                  | None => None
                  | Some (v, r3) =>
                      let acc' := dict_set acc key v in
                      match skip_ws r3 with
                      | EmptyString => None
                      | String c4 r4 =>
                          if Ascii.eqb c4 "}" then Some (PDict acc', r4)
                          else if Ascii.eqb c4 ","
                          then parse_members n acc' (skip_ws r4)
                          else None
                      end
                  end
                else None
            end
        end
      else None.
Proof. reflexivity. Qed.

Lemma skip_ws_space s : skip_ws (String " " s) = skip_ws s.
Proof. reflexivity. Qed.

(** One member of a dict is read, and the loop goes on with what follows
    it. *)
Lemma parse_members_one n acc k v X :
  scalar v -> ends_number X ->
  parse_members (S (S n)) acc (quote k +:+ ": " +:+ dumps v +:+ X)
    = match skip_ws X with
      | EmptyString => None
      | String c r =>
          if Ascii.eqb c "}" then Some (PDict (dict_set acc k v), r)
          else if Ascii.eqb c ","
               then parse_members (S n) (dict_set acc k v) (skip_ws r)
               else None
      end.
Proof.
  intros Hv HX. rewrite member_shape, parse_members_unfold.
  rewrite Ascii.eqb_refl, scanstring_escape.
  rewrite (skip_ws_head ":") by reflexivity.
  cbv beta match. rewrite Ascii.eqb_refl, skip_ws_space.
  rewrite (skip_ws_scalar v X Hv).
  rewrite (parse_value_scalar n v X Hv HX). reflexivity.
Qed.

Lemma members_text_head kv kvs :
  exists s, members_text (kv :: kvs) = String dquote s.
Proof.
  destruct kv as [k v]. destruct kvs as [|kv2 kvs]; cbn [members_text];
    unfold quote; eexists; reflexivity.
Qed.

Lemma parse_members_flat kvs : forall acc n rest,
  kvs <> [] -> flat kvs ->
  parse_members (length kvs + 1 + n) acc (members_text kvs +:+ String "}" rest)
    = Some (PDict (dict_update acc kvs), rest).
Proof.
  induction kvs as [|[k v] tl IH]; intros acc n rest Hne Hflat; [congruence|].
  apply Forall_cons in Hflat as [Hv Htl]. simpl in Hv.
  destruct tl as [|kv2 tl].
  - change (length [(k, v)] + 1 + n)%nat with (S (S n)).
    cbn [members_text]. rewrite !app_assoc_str.
    rewrite parse_members_one; [reflexivity|exact Hv|simpl; auto].
  - change (members_text ((k, v) :: kv2 :: tl))
      with (quote k +:+ ": " +:+ dumps v +:+ ", " +:+ members_text (kv2 :: tl)).
    rewrite !app_assoc_str.
    change (length ((k, v) :: kv2 :: tl) + 1 + n)%nat
      with (S (S (length tl + 1 + n))).
    rewrite parse_members_one; [|exact Hv|simpl; auto].
    change (", " +:+ ?x) with (String "," (String " " x)).
    rewrite (skip_ws_head ",") by reflexivity.
    cbv beta match. change (Ascii.eqb "," "}") with false.
    change (Ascii.eqb "," ",") with true. cbv beta match.
    rewrite skip_ws_space.
    destruct (members_text_head kv2 tl) as (s & Hs).
    rewrite Hs.
    change (String dquote s +:+ ?x) with (String dquote (s +:+ x)).
    rewrite skip_ws_head by reflexivity.
    change (String dquote (s +:+ ?x)) with (String dquote s +:+ x).
    rewrite <- Hs.
    change (S (length tl + 1 + n)) with (length (kv2 :: tl) + 1 + n)%nat.
    rewrite IH; [reflexivity|discriminate|exact Htl].
Qed.

Lemma dict_set_fresh d k v :
  ~ In k (map fst d) -> dict_set d k v = d ++ [(k, v)].
Proof.
  induction d as [|[k' v'] d IH]; intros Hk; [reflexivity|].
  cbn [dict_set]. destruct (String.eqb_spec k' k) as [->|Hne].
  - exfalso. apply Hk. left. reflexivity.
  - rewrite IH; [reflexivity|]. intros Hin. apply Hk. right. exact Hin.
Qed.

(** Setting distinct new keys one by one appends the pairs. *)
Lemma dict_update_fresh kvs : forall d,
  NoDup (map fst (d ++ kvs)) -> dict_update d kvs = d ++ kvs.
Proof.
  induction kvs as [|[k v] kvs IH]; intros d Hnd.
  - rewrite app_nil_r. reflexivity.
  - unfold dict_update. cbn [foldl fst snd]. fold (dict_update (dict_set d k v) kvs).
    assert (Hk : ~ In k (map fst d)).
    { rewrite map_app in Hnd. apply NoDup_app in Hnd as (_ & Hdisj & _).
      intros Hin. apply (Hdisj k); [apply list_elem_of_In; exact Hin|].
      constructor. }
    rewrite (dict_set_fresh d k v Hk).
    rewrite IH.
    + rewrite <- app_assoc. reflexivity.
    + rewrite <- app_assoc. exact Hnd.
Qed.

Lemma dumps_dict kvs :
  dumps (PDict kvs) = String "{" (members_text kvs +:+ "}").
Proof. reflexivity. Qed.

Lemma length_members kvs :
  (length kvs <= String.length (members_text kvs))%nat.
Proof.
  induction kvs as [|[k v] tl IH]; [simpl; lia|].
  destruct tl as [|kv2 tl].
  - cbn [members_text length]. unfold quote. simpl. lia.
  - change (members_text ((k, v) :: kv2 :: tl))
      with (quote k +:+ ": " +:+ dumps v +:+ ", " +:+ members_text (kv2 :: tl)).
    rewrite !length_app_str. unfold quote.
    cbn [length String.length] in *. lia.
Qed.

(** [json.loads] reads back a dict of scalars with distinct keys that
    [json.dumps] wrote. *)
Lemma loads_dumps_flat kvs :
  flat kvs -> NoDup (map fst kvs) ->
  loads (dumps (PDict kvs)) = Ok (PDict kvs).
Proof.
  intros Hflat Hnd. rewrite dumps_dict. unfold loads.
  rewrite (skip_ws_head "{") by reflexivity.
  destruct kvs as [|kv tl]; [reflexivity|].
  pose proof (length_members (kv :: tl)) as Hlen.
  set (text := members_text (kv :: tl)) in *.
  cbn [String.length]. rewrite length_app_str.
  replace (2 * S (String.length text + String.length "}") + 2)%nat
    with (S (length (kv :: tl) + 1
             + (2 * S (String.length text + 1) - length (kv :: tl))))
    by (cbn [String.length length] in *; lia).
  cbn [parse_value]. change (Ascii.eqb "{" dquote) with false.
  change (Ascii.eqb "{" "{") with true. cbv beta match.
  destruct (members_text_head kv tl) as (s & Hs). fold text in Hs.
  rewrite Hs.
  change (String dquote s +:+ "}") with (String dquote (s +:+ "}")).
  rewrite skip_ws_head by reflexivity.
  change (Ascii.eqb dquote "}") with false. cbv beta match.
  change (String dquote (s +:+ "}")) with (String dquote s +:+ "}").
  rewrite <- Hs. unfold text.
  rewrite parse_members_flat; [|discriminate|exact Hflat].
  rewrite (dict_update_fresh (kv :: tl) [] Hnd). reflexivity.
Qed.

End JsonProperties.

(** ** Progress tracker *)

Section TrackerProperties.

Import Json Tracker.

(** [load] in one equation: the call is logged; a missing file changes
    nothing else; a file that cannot be read, parsed or used as a dict
    costs a warning; otherwise the attributes are the file's. *)
Lemma load_eq self w :
  load self w =
    match fs w !! state_file self with
    | None => (Ok self, with_call Mload w)
    | Some _ =>
        match read_state (fs w) (state_file self) with
        | Ok s => (Ok s, with_call Mload w)
        | Raise e => (Ok self, with_line (warning e) (with_call Mload w))
        end
    end.
Proof.
  unfold load, read_state, stored, path_exists, read_file. run.
  destruct (fs w !! state_file self) as [[|r wr data]|] eqn:Hf; simpl;
    rewrite ?Hf; simpl; try reflexivity.
  destruct r; simpl; [|reflexivity].
  destruct (loads data) as [state|e]; simpl; [|reflexivity].
  destruct state; reflexivity.
Qed.


Lemma init_eq path w :
  init path w =
    match fs w !! path with
    | None => (Ok (fresh path), with_call Mload w)
    | Some _ =>
        match read_state (fs w) path with
        | Ok s => (Ok s, with_call Mload w)
        | Raise e => (Ok (fresh path),
                      with_line (warning e) (with_call Mload w))
        end
    end.
Proof. unfold init. rewrite load_eq. reflexivity. Qed.

(** C8, amended. The [load] of the constructor never raises and leaves
    the file system as it is. With no state file the tracker holds the
    defaults (no last asset, chunk 1, size 0) and nothing is printed; with
    a state file that cannot be read, parsed or used as a dict it holds
    the defaults and one warning line is printed; otherwise it holds what
    the file gives. *)
Theorem init_never_raises :
  forall (path : string) (w : world),
    exists self w',
      init path w = (Ok self, w') /\ fs w' = fs w /\
      match fs w !! path with
      | None => self = fresh path /\ stdout w' = stdout w
      | Some _ =>
          match read_state (fs w) path with
          | Raise e => self = fresh path /\
                       stdout w' = stdout w ++ [warning e]
          | Ok s => self = s /\ stdout w' = stdout w
          end
      end.
Proof.
  intros path w. rewrite init_eq.
  destruct (fs w !! path) as [nd|].
  - destruct (read_state (fs w) path) as [s|e];
      eexists _, _; (split; [reflexivity|]); simpl; auto.
  - eexists _, _. split; [reflexivity|]. simpl. auto.
Qed.

(** C8 as stated does not hold: on a first run, with no state file, the
    tracker starts from the defaults and no warning is printed. *)
Lemma load_absent_prints_no_warning : ~ load_warns_on_every_default.
Proof.
  intros H.
  destruct (H state_path first_run) as (self & w' & e & Hinit & _ & Hout).
  - left. reflexivity.
  - rewrite init_eq in Hinit. simpl in Hinit.
    injection Hinit as _ <-. simpl in Hout.
    discriminate Hout.
Qed.



Lemma typed_record_flat path asset_id dvd dvd_size :
  match record (typed path asset_id dvd dvd_size) with
  | PDict kvs => flat kvs /\ NoDup (map fst kvs)
  | _ => False
  end.
Proof.
  simpl. split.
  - repeat constructor. destruct asset_id; exact I.
  - apply (bool_decide_unpack _). vm_compute. exact I.
Qed.

(** After a [save] that returned, the state file is a readable file that
    holds the record. *)
Lemma save_ok_readable self w w1 :
  readable_if_present w (state_file self) ->
  save self w = (Ok tt, w1) ->
  exists wr, fs w1 !! state_file self
             = Some (File true wr (dumps (record self))).
Proof.
  unfold save, write_file, readable_if_present. run. intros Hr.
  destruct (fs w !! state_file self) as [[|r wr data]|] eqn:Hf; simpl;
    [discriminate| |].
  - destruct wr; simpl; [|discriminate]. intros [= <-]. simpl.
    destruct r; [|exfalso; eapply Hr; reflexivity].
    exists true. apply lookup_insert_eq.
  - destruct (parent_ok (fs w) (state_file self)); simpl; [|discriminate].
    intros [= <-]. simpl. exists true. apply lookup_insert_eq.
Qed.

(** C4. For every tracker state (an asset identifier or none, a chunk
    ordinal, an accumulated size): when [save] returns, and the state
    file is not one that was there unreadable, a [load] from the same
    file, on any tracker object, gives back exactly the saved state, with
    no warning. *)
Theorem save_then_load_round_trip :
  forall (path : string) (asset_id : option string) (dvd dvd_size : Z)
         (w w1 : world) (other : BackupState),
    readable_if_present w path ->
    state_file other = path ->
    save (typed path asset_id dvd dvd_size) w = (Ok tt, w1) ->
    load other w1
      = (Ok (typed path asset_id dvd dvd_size), with_call Mload w1).
Proof.
  intros path asset_id dvd dvd_size w w1 other Hr Hpath Hsave.
  destruct (save_ok_readable (typed path asset_id dvd dvd_size) w w1 Hr Hsave)
    as (wr & Hfile).
  cbn [state_file typed] in Hfile.
  rewrite load_eq, Hpath, Hfile. unfold read_state, stored. rewrite Hfile.
  pose proof (typed_record_flat path asset_id dvd dvd_size) as Hrec.
  destruct (record (typed path asset_id dvd dvd_size)) as [| | | | | |kvs] eqn:Hk;
    try contradiction.
  destruct Hrec as [Hflat Hnd].
  rewrite (loads_dumps_flat kvs Hflat Hnd).
  injection Hk as <-. reflexivity.
Qed.

Lemma save_then_load_round_trip_witness :
  load (fresh state_path)
       (snd (save (typed state_path (Some "A1") 2 10) first_run))
    = (Ok (typed state_path (Some "A1") 2 10),
       with_call Mload (snd (save (typed state_path (Some "A1") 2 10) first_run))).
Proof.
  apply (save_then_load_round_trip state_path (Some "A1") 2 10 first_run).
  - intros wr data H. discriminate H.
  - reflexivity.
  - reflexivity.
Defined.

End TrackerProperties.

(** ** What a run leaves alone *)

Section FrameProperties.

Lemma frame_refl w : frame w w.
Proof.
  split.
  - exists []. rewrite app_nil_r. split; [reflexivity|constructor].
  - exists []. rewrite app_nil_r. split; [reflexivity|].
    split; [constructor|]. reflexivity.
Qed.

Lemma frame_trans w1 w2 w3 : frame w1 w2 -> frame w2 w3 -> frame w1 w3.
Proof.
  intros [(c1 & Hc1 & Hl1) (l1 & He1 & Hq1 & Hf1)]
         [(c2 & Hc2 & Hl2) (l2 & He2 & Hq2 & Hf2)].
  split.
  - exists (c1 ++ c2). rewrite Hc2, Hc1, app_assoc.
    split; [reflexivity|]. apply Forall_app. split; assumption.
  - exists (l1 ++ l2). rewrite He2, He1, app_assoc.
    split; [reflexivity|]. split; [apply Forall_app; split; assumption|].
    intros p Hp. apply Forall_app in Hp as [Hp1 Hp2].
    rewrite (Hf2 p Hp2). apply Hf1. exact Hp1.
Qed.

(** One logged call and the change it made. *)
Lemma frame_effect w e f :
  quiet e ->
  (forall p, ~ touches e p -> f !! p = fs w !! p) ->
  frame w (with_fs f (with_effect e w)).
Proof.
  intros Hq Hf. split.
  - exists []. simpl. rewrite app_nil_r. split; [reflexivity|constructor].
  - exists [e]. simpl. split; [reflexivity|].
    split; [constructor; [exact Hq|constructor]|].
    intros p Hp. apply Hf. inversion Hp; assumption.
Qed.

Lemma frame_effect_only w e : quiet e -> frame w (with_effect e w).
Proof.
  intros Hq. split.
  - exists []. simpl. rewrite app_nil_r. split; [reflexivity|constructor].
  - exists [e]. simpl. split; [reflexivity|].
    split; [constructor; [exact Hq|constructor]|]. reflexivity.
Qed.

Lemma preserves_ret {A} (a : A) : preserves (ret a).
Proof. intros w. apply frame_refl. Qed.

Lemma preserves_raise {A} e : preserves (@raise A e).
Proof. intros w. apply frame_refl. Qed.

Lemma preserves_bind {A B} (m : M A) (k : A -> M B) :
  preserves m -> (forall a, preserves (k a)) -> preserves (bind m k).
Proof.
  intros Hm Hk w. unfold bind. specialize (Hm w).
  destruct (m w) as [[a|e] w1]; simpl in *; [|exact Hm].
  eapply frame_trans; [exact Hm|apply Hk].
Qed.

Lemma preserves_try {A} catches (m : M A) handler :
  preserves m -> (forall e, preserves (handler e)) ->
  preserves (try_except catches m handler).
Proof.
  intros Hm Hh w. unfold try_except. specialize (Hm w).
  destruct (m w) as [[a|e] w1]; simpl in *; [exact Hm|].
  destruct (catches e); [|exact Hm].
  eapply frame_trans; [exact Hm|apply Hh].
Qed.

Lemma preserves_print line : preserves (print line).
Proof.
  intros w. split.
  - exists []. simpl. rewrite app_nil_r. split; [reflexivity|constructor].
  - exists []. simpl. rewrite app_nil_r. split; [reflexivity|].
    split; [constructor|]. reflexivity.
Qed.

Lemma preserves_load_call : preserves (log_call Mload).
Proof.
  intros w. split.
  - exists [Mload]. simpl. split; [reflexivity|]. repeat constructor.
  - exists []. simpl. rewrite app_nil_r. split; [reflexivity|].
    split; [constructor|]. reflexivity.
Qed.

Lemma preserves_path_exists p : preserves (path_exists p).
Proof. intros w. apply frame_refl. Qed.

Lemma preserves_read_file p : preserves (read_file p).
Proof.
  intros w. unfold read_file. run.
  destruct (fs w !! p) as [[|[] wr data]|]; apply frame_refl.
Qed.

Lemma preserves_os_link src dst : preserves (os_link src dst).
Proof.
  intros w. unfold os_link. run.
  destruct (fs w !! src) as [[|r wr data]|];
    try (apply frame_effect_only; exact I).
  destruct (fs w !! dst); [apply frame_effect_only; exact I|].
  destruct (parent_ok (fs w) dst); [|apply frame_effect_only; exact I].
  apply (frame_effect w (Link src dst)); [exact I|].
  intros p Hp. apply lookup_insert_ne. exact Hp.
Qed.

Lemma preserves_copy2 src dst : preserves (copy2 src dst).
Proof.
  intros w. unfold copy2. run.
  set (dst' := match fs w !! dst with
               | Some Dir => Py.join dst (Py.basename src)
               | _ => dst
               end).
  assert (Hdst : forall p, ~ touches (Copy2 src dst) p -> dst' <> p).
  { intros p Hp Heq. apply Hp. simpl. unfold dst' in Heq.
    destruct (fs w !! dst) as [[|? ? ?]|]; auto. }
  destruct (fs w !! src) as [[|r wr data]|];
    try (apply frame_effect_only; exact I).
  destruct (String.eqb src dst'); [apply frame_effect_only; exact I|].
  destruct r; simpl; [|apply frame_effect_only; exact I].
  destruct (fs w !! dst') as [[|r' [] data']|];
    try (apply frame_effect_only; exact I).
  - apply (frame_effect w (Copy2 src dst)); [exact I|].
    intros p Hp. apply lookup_insert_ne. apply Hdst. exact Hp.
  - destruct (parent_ok (fs w) dst'); [|apply frame_effect_only; exact I].
    apply (frame_effect w (Copy2 src dst)); [exact I|].
    intros p Hp. apply lookup_insert_ne. apply Hdst. exact Hp.
Qed.

Lemma preserves_rmtree q : preserves (rmtree q).
Proof.
  intros w. unfold rmtree. run.
  destruct (fs w !! q) as [[|r wr data]|];
    try (apply frame_effect_only; exact I).
  apply (frame_effect w (Rmtree q)); [exact I|].
  intros p Hp. simpl in Hp. rewrite map_lookup_filter.
  destruct (fs w !! p) as [nd|]; simpl; [|reflexivity].
  rewrite option_guard_True; [reflexivity|].
  simpl. destruct (under q p); [exfalso; apply Hp; reflexivity|reflexivity].
Qed.

Lemma preserves_subprocess_run E cmd : preserves (subprocess_run E cmd).
Proof.
  intros w. unfold subprocess_run. run.
  destruct (proc E cmd) as [out|]; [|apply frame_effect_only; exact I].
  destruct (output_arg cmd) as [path|] eqn:Ho; simpl;
    [|apply frame_effect_only; exact I].
  apply (frame_effect w (Run cmd)); [exact I|].
  intros p Hp. apply lookup_insert_ne. intros ->. apply Hp. exact Ho.
Qed.

(** *** Prefixes, for the directories that [makedirs] creates *)

Lemma prefix_refl s : String.prefix s s = true.
Proof.
  induction s as [|c s IH]; [reflexivity|]. simpl.
  destruct (ascii_dec c c); [exact IH|congruence].
Qed.

Lemma prefix_cons_inv c s d t :
  String.prefix (String c s) (String d t) = true -> c = d /\ String.prefix s t = true.
Proof. simpl. destruct (ascii_dec c d); [auto|discriminate]. Qed.

Lemma prefix_cons c s t :
  String.prefix s t = true -> String.prefix (String c s) (String c t) = true.
Proof. intros H. simpl. destruct (ascii_dec c c); [exact H|congruence]. Qed.

Lemma prefix_nil s : String.prefix EmptyString s = true.
Proof. destruct s; reflexivity. Qed.

Lemma prefix_trans s : forall t u,
  String.prefix s t = true -> String.prefix t u = true ->
  String.prefix s u = true.
Proof.
  induction s as [|c s IH]; intros t u Hst Htu; [apply prefix_nil|].
  destruct t as [|d t]; [discriminate|].
  destruct u as [|e u]; [discriminate|].
  apply prefix_cons_inv in Hst as [-> Hst].
  apply prefix_cons_inv in Htu as [-> Htu].
  apply prefix_cons. eapply IH; eassumption.
Qed.

Lemma prefix_take n : forall s, String.prefix (Py.take n s) s = true.
Proof.
  induction n as [|n IH]; intros [|c s]; try reflexivity.
  cbn [Py.take]. apply prefix_cons. apply IH.
Qed.

Lemma prefix_rstrip_slash s : String.prefix (Py.rstrip_slash s) s = true.
Proof.
  induction s as [|c s IH]; [reflexivity|].
  cbn [Py.rstrip_slash].
  destruct (Py.rstrip_slash s) as [|d r].
  - destruct (Ascii.eqb c "/"); [reflexivity|].
    apply prefix_cons. apply prefix_nil.
  - apply prefix_cons. exact IH.
Qed.

Lemma prefix_dirname p : String.prefix (Py.dirname p) p = true.
Proof.
  unfold Py.dirname.
  set (head := Py.take _ p).
  assert (Hh : String.prefix head p = true) by apply prefix_take.
  pose proof (prefix_rstrip_slash head) as Hr.
  destruct (Py.rstrip_slash head); [exact Hh|].
  eapply prefix_trans; eassumption.
Qed.

Lemma makedirs_fs_frame fuel : forall q f f' p,
  makedirs_fs fuel q f = Ok f' ->
  String.prefix p q <> true ->
  f' !! p = f !! p.
Proof.
  assert (Hins : forall q (f : gmap string node) p,
             String.prefix p q <> true -> <[q := Dir]> f !! p = f !! p).
  { intros q f p Hp. apply lookup_insert_ne. intros ->.
    apply Hp. apply prefix_refl. }
  induction fuel as [|fuel IH]; intros q f f' p Hm Hp; simpl in Hm.
  - destruct (f !! q) as [[|r wr data]|]; try discriminate.
    + injection Hm as <-. reflexivity.
    + injection Hm as <-. apply Hins. exact Hp.
  - destruct (f !! q) as [[|r wr data]|]; try discriminate.
    + injection Hm as <-. reflexivity.
    + destruct (always_there (Py.dirname q) || String.eqb (Py.dirname q) q).
      * injection Hm as <-. apply Hins. exact Hp.
      * destruct (makedirs_fs fuel (Py.dirname q) f) as [f1|e] eqn:Hrec;
          [|destruct e; discriminate].
        injection Hm as <-. rewrite (Hins q f1 p Hp).
        eapply IH; [exact Hrec|].
        intros Hpre. apply Hp.
        eapply prefix_trans; [exact Hpre|apply prefix_dirname].
Qed.

Lemma preserves_makedirs q : preserves (makedirs q).
Proof.
  intros w. unfold makedirs. run.
  destruct (makedirs_fs (String.length q) q (fs w)) as [f'|e] eqn:Hm;
    [|apply frame_effect_only; exact I].
  apply (frame_effect w (Makedirs q)); [exact I|].
  intros p Hp. eapply makedirs_fs_frame; [exact Hm|exact Hp].
Qed.

(** *** The components *)

Create HintDb frames.

Hint Resolve preserves_ret preserves_raise preserves_print
  preserves_load_call preserves_path_exists preserves_read_file
  preserves_os_link preserves_copy2 preserves_rmtree
  preserves_subprocess_run preserves_makedirs : frames.

(** Splits a computation along its binds, handlers and branches. *)
Ltac frames :=
  repeat first
    [ solve [auto with frames]
    | apply preserves_bind; [|intros ?]
    | apply preserves_try; [|intros ?]
    | match goal with
      | |- preserves (if ?b then _ else _) => destruct b
      | |- preserves (match ?x with _ => _ end) => destruct x
      end ].

Lemma preserves_run_command E cmd : preserves (run_command E cmd).
Proof. unfold run_command. frames. Qed.

Hint Resolve preserves_run_command : frames.

Lemma preserves_try_tools E iso_path tools :
  preserves (try_tools E iso_path tools).
Proof. induction tools as [|cmd rest IH]; cbn [try_tools]; frames. Qed.

Lemma preserves_create_iso E source_dir iso_path :
  preserves (create_iso E source_dir iso_path).
Proof. unfold create_iso. frames. apply preserves_try_tools. Qed.

Hint Resolve preserves_create_iso : frames.

Lemma preserves_archive_step E dry_run dvd_dir iso_path :
  preserves (archive_step E dry_run dvd_dir iso_path).
Proof. unfold archive_step. frames. Qed.

Lemma preserves_worker_step dvd_dir dry_run use_links k :
  preserves (worker_step dvd_dir dry_run use_links k).
Proof. unfold worker_step. destruct k; frames. Qed.

Hint Resolve preserves_archive_step preserves_worker_step : frames.

Lemma preserves_copy_asset a dvd_dir dry_run use_links :
  preserves (copy_asset a dvd_dir dry_run use_links).
Proof. unfold copy_asset, place. frames. Qed.

Lemma preserves_worker_finish dvd_dir dry_run use_links k :
  preserves (worker_finish dvd_dir dry_run use_links k).
Proof. unfold worker_finish. frames. Qed.

Hint Resolve preserves_worker_finish : frames.

Lemma preserves_run_schedule dvd_dir dry_run use_links threads sched :
  forall ws, preserves (run_schedule dvd_dir dry_run use_links threads sched ws).
Proof.
  induction sched as [|i rest IH]; intros ws; cbn [run_schedule]; frames.
Qed.

Lemma preserves_drain dvd_dir dry_run use_links ws :
  preserves (drain dvd_dir dry_run use_links ws).
Proof. induction ws as [|k rest IH]; cbn [drain]; frames. Qed.

Hint Resolve preserves_run_schedule preserves_drain : frames.

Lemma preserves_run_pool dvd_dir dry_run use_links threads sched dvd_assets :
  preserves (run_pool dvd_dir dry_run use_links threads sched dvd_assets).
Proof. unfold run_pool. frames. Qed.

Hint Resolve preserves_run_pool : frames.

Lemma preserves_process_dvd E A d : preserves (process_dvd E A d).
Proof. unfold process_dvd. frames. Qed.


Lemma preserves_select all_dvds choice : preserves (select all_dvds choice).
Proof. unfold select. frames. Qed.

Lemma preserves_get_assets_from_db E : preserves (get_assets_from_db E).
Proof. unfold get_assets_from_db. frames. Qed.

Lemma preserves_load self : preserves (Tracker.load self).
Proof. unfold Tracker.load, Tracker.get, Tracker.lift. frames. Qed.

Lemma preserves_init path : preserves (Tracker.init path).
Proof. apply preserves_load. Qed.

Hint Resolve preserves_process_dvd preserves_select
  preserves_get_assets_from_db preserves_init : frames.


End FrameProperties.




(** ** More on the bin packer *)

Section PackerFurther.

Import Packer PackerFacts.

Lemma ordinals_snoc n : ordinals (S n) = ordinals n ++ [Z.of_nat n + 1].
Proof. unfold ordinals. rewrite seq_S, map_app. reflexivity. Qed.

Lemma neighbours_snoc {A} (l : list A) (d : A) :
  neighbours (l ++ [d])
    = neighbours l ++ match last l with Some x => [(x, d)] | None => [] end.
Proof.
  induction l as [|x l IH]; [reflexivity|].
  destruct l as [|y l]; [reflexivity|].
  change ((x :: y :: l) ++ [d]) with (x :: ((y :: l) ++ [d])).
  change (neighbours (x :: (y :: l) ++ [d]))
    with ((x, y) :: neighbours ((y :: l) ++ [d])).
  rewrite IH. reflexivity.
Qed.

Lemma seal_facts n cur sz d :
  seal n cur sz = Some d ->
  d_num d = n /\ d_assets d = cur /\ d_size d = sz /\ range_ok d.
Proof.
  unfold seal, first_asset, last_asset, range_ok.
  destruct (head cur) as [a0|] eqn:H0; [|discriminate]. simpl.
  destruct (last cur) as [a1|] eqn:H1; [|discriminate]. simpl.
  intros [= <-]. simpl. repeat split; eauto 10.
Qed.

Lemma last_snoc_some {A} (l : list A) x : last (l ++ [x]) = Some x.
Proof. apply last_snoc. Qed.

Lemma pack_step_sealed capacity st a st' :
  acc_sealed capacity st ->
  pack_step capacity st a = Some st' ->
  acc_sealed capacity st'.
Proof.
  intros (Hnum & Hnext & Hrange & Htight & Hlast). unfold pack_step.
  destruct ((dvd_size st + size_or_0 a >? capacity)
            && truthy (current_dvd_assets st)) eqn:Hc.
  - apply andb_true_iff in Hc as [Hgt Hne].
    destruct (seal (dvd_num st) (current_dvd_assets st) (dvd_size st))
      as [d|] eqn:Hseal; [|discriminate].
    simpl. intros [= <-].
    destruct (seal_facts _ _ _ _ Hseal) as (Hdn & Hda & Hds & Hdr).
    unfold acc_sealed. simpl.
    rewrite length_app, Nat.add_1_r, ordinals_snoc, map_app, Hnum.
    simpl. rewrite Hdn, Hnext.
    split; [reflexivity|]. split; [lia|].
    split; [apply Forall_app; split; [assumption|constructor; [assumption|constructor]]|].
    split.
    + rewrite neighbours_snoc. apply Forall_app. split; [assumption|].
      destruct (last (all_dvds st)) as [dl|]; [|constructor].
      constructor; [|constructor]. unfold tight. simpl. rewrite Hda.
      destruct (current_dvd_assets st) as [|a0 l]; [contradiction|assumption].
    + rewrite last_snoc_some, Hds. lia.
  - simpl. intros [= <-]. unfold acc_sealed. simpl.
    split; [assumption|]. split; [assumption|].
    split; [assumption|]. split; [assumption|].
    destruct (last (all_dvds st)) as [dl|]; [|exact I].
    destruct (current_dvd_assets st) as [|a0 l]; [contradiction|assumption].
Qed.

Lemma pack_loop_sealed capacity assets : forall st st',
  acc_sealed capacity st ->
  pack_loop capacity st assets = Some st' ->
  acc_sealed capacity st'.
Proof.
  induction assets as [|a rest IH]; intros st st' Hok; simpl.
  - intros [= <-]. assumption.
  - destruct (pack_step capacity st a) as [st1|] eqn:Hstep; [|discriminate].
    simpl. apply IH. eapply pack_step_sealed; eassumption.
Qed.

Lemma acc0_sealed capacity : acc_sealed capacity acc0.
Proof. repeat split; constructor. Qed.

Lemma organize_sealed assets capacity dvds :
  organize assets capacity = Some dvds ->
  map d_num dvds = ordinals (length dvds) /\
  Forall range_ok dvds /\
  Forall (tight capacity) (neighbours dvds).
Proof.
  unfold organize.
  destruct (pack_loop capacity acc0 assets) as [st|] eqn:Hloop; [|discriminate].
  simpl.
  destruct (pack_loop_sealed capacity assets acc0 st (acc0_sealed capacity) Hloop)
    as (Hnum & Hnext & Hrange & Htight & Hlast).
  destruct (truthy (current_dvd_assets st)) eqn:Ht.
  - destruct (seal (dvd_num st) (current_dvd_assets st) (dvd_size st))
      as [d|] eqn:Hseal; [|discriminate].
    simpl. intros [= <-].
    destruct (seal_facts _ _ _ _ Hseal) as (Hdn & Hda & Hds & Hdr).
    rewrite length_app, Nat.add_1_r, ordinals_snoc, map_app, Hnum.
    simpl. rewrite Hdn, Hnext.
    split; [reflexivity|].
    split; [apply Forall_app; split; [assumption|constructor; [assumption|constructor]]|].
    rewrite neighbours_snoc. apply Forall_app. split; [assumption|].
    destruct (last (all_dvds st)) as [dl|]; [|constructor].
    constructor; [|constructor]. unfold tight. simpl. rewrite Hda.
    destruct (current_dvd_assets st) as [|a0 l]; [contradiction|assumption].
  - intros [= <-]. auto.
Qed.

End PackerFurther.

Section PackerTheorems.

Import Packer PackerFacts.

(** X1. The chunks are numbered 1, 2, 3, ... in the order they were
    sealed, without a gap. *)
Theorem organize_ordinals :
  forall assets capacity,
    exists dvds,
      organize assets capacity = Some dvds /\
      map d_num dvds = ordinals (length dvds).
Proof.
  intros assets capacity.
  destruct (organize_spec assets capacity) as (dvds & Horg & _).
  exists dvds. split; [exact Horg|].
  apply (organize_sealed assets capacity dvds Horg).
Qed.


(** X3. The packing is greedy: a chunk is closed only when the next asset
    would not fit, so the size of a chunk plus the size of the first
    member of the chunk after it exceeds the capacity. *)
Theorem organize_chunks_are_tight :
  forall assets capacity,
    exists dvds,
      organize assets capacity = Some dvds /\
      Forall (tight capacity) (neighbours dvds).
Proof.
  intros assets capacity.
  destruct (organize_spec assets capacity) as (dvds & Horg & _).
  exists dvds. split; [exact Horg|].
  apply (organize_sealed assets capacity dvds Horg).
Qed.

Lemma total_size_concat (ls : list (list asset)) :
  total_size (concat ls) = foldr (fun l s => total_size l + s) 0 ls.
Proof.
  induction ls as [|l ls IH]; [reflexivity|].
  simpl. rewrite total_size_app, IH. reflexivity.
Qed.

(** X4. No byte is lost or counted twice: the sizes recorded for the
    chunks add up to the cumulative size of the inventory. *)
Theorem organize_sizes_add_up :
  forall assets capacity,
    exists dvds,
      organize assets capacity = Some dvds /\
      foldr (fun d s => d_size d + s) 0 dvds = total_size assets.
Proof.
  intros assets capacity.
  destruct (organize_spec assets capacity) as (dvds & Horg & Hcat & Hok).
  exists dvds. split; [exact Horg|].
  rewrite <- Hcat, total_size_concat. clear Horg Hcat.
  induction Hok as [|d dvds (_ & Hsz & _) _ IH]; [reflexivity|].
  simpl. rewrite IH, Hsz. reflexivity.
Qed.

(** X5. When no single asset is larger than the capacity, no chunk is:
    the exception for oversized assets is the only way over the bound. *)
Theorem organize_all_within_capacity :
  forall assets capacity,
    Forall (fun a => size_or_0 a <= capacity) assets ->
    exists dvds,
      organize assets capacity = Some dvds /\
      Forall (fun d => d_size d <= capacity) dvds.
Proof.
  intros assets capacity Hfit.
  destruct (organize_spec assets capacity) as (dvds & Horg & Hcat & Hok).
  exists dvds. split; [exact Horg|].
  rewrite <- Hcat in Hfit. clear Horg Hcat.
  induction Hok as [|d dvds (Hne & Hsz & Hcap) _ IH]; [constructor|].
  simpl in Hfit. apply Forall_app in Hfit as [Hd Hrest].
  constructor; [|apply IH; exact Hrest].
  destruct Hcap as [Hle|Hone]; [exact Hle|].
  rewrite Hsz.
  destruct (d_assets d) as [|a [|b l]]; simpl in Hone; try discriminate.
  apply Forall_cons in Hd as [Ha _]. unfold total_size. simpl. lia.
Qed.

Lemma organize_all_within_capacity_witness :
  exists dvds,
    organize (map sized [3000; 1500; 4000]) 5000 = Some dvds /\
    Forall (fun d => d_size d <= 5000) dvds.
Proof.
  apply organize_all_within_capacity.
  cbn [map]. repeat (apply Forall_cons; split; [vm_compute; discriminate|]).
  apply Forall_nil_2.
Defined.

End PackerTheorems.

(** ** More on the materializer *)

Section PlacementProperties.

(** [os.link]: one logged call; on success the new name holds the
    source's file, on failure, always an [OSError], nothing changes. *)
Lemma os_link_spec src dst w :
  exists r w1,
    os_link src dst w = (r, w1) /\
    effects w1 = effects w ++ [Link src dst] /\
    stdout w1 = stdout w /\ calls w1 = calls w /\
    match r with
    | Ok _ => exists rd wr data,
        fs w !! src = Some (File rd wr data) /\
        fs w1 = <[dst := File rd wr data]> (fs w)
    | Raise e => fs w1 = fs w /\ is_OSError e = true
    end.
Proof.
  unfold os_link. run.
  destruct (fs w !! src) as [[|rd wr data]|] eqn:Hs; simpl;
    try (eexists _, _; split; [reflexivity|]; simpl; auto 10).
  destruct (fs w !! dst); simpl;
    try (eexists _, _; split; [reflexivity|]; simpl; auto 10).
  destruct (parent_ok (fs w) dst); simpl;
    eexists _, _; (split; [reflexivity|]); simpl; eauto 10.
Qed.

(** [shutil.copy2]: one logged call; on success the destination, or the
    entry of the source's name inside it when it is a directory, holds
    the source's file; on failure nothing changes. *)
Lemma copy2_spec src dst w :
  exists r w1,
    copy2 src dst w = (r, w1) /\
    effects w1 = effects w ++ [Copy2 src dst] /\
    stdout w1 = stdout w /\ calls w1 = calls w /\
    match r with
    | Ok _ => exists rd wr data p,
        fs w !! src = Some (File rd wr data) /\
        (p = dst \/ p = Py.join dst (Py.basename src)) /\
        fs w1 = <[p := File rd wr data]> (fs w)
    | Raise e => fs w1 = fs w
    end.
Proof.
  unfold copy2. run.
  set (dst' := match fs w !! dst with
               | Some Dir => Py.join dst (Py.basename src)
               | _ => dst
               end).
  assert (Hd : dst' = dst \/ dst' = Py.join dst (Py.basename src)).
  { unfold dst'. destruct (fs w !! dst) as [[|? ? ?]|]; auto. }
  destruct (fs w !! src) as [[|rd wr data]|] eqn:Hs; simpl;
    try (eexists _, _; split; [reflexivity|]; simpl; auto 10).
  destruct (String.eqb src dst'); simpl;
    try (eexists _, _; split; [reflexivity|]; simpl; auto 10).
  destruct rd; simpl;
    try (eexists _, _; split; [reflexivity|]; simpl; auto 10).
  destruct (fs w !! dst') as [[|r' [] data']|]; simpl;
    try (eexists _, _; split; [reflexivity|]; simpl; eauto 12).
  destruct (parent_ok (fs w) dst'); simpl;
    eexists _, _; (split; [reflexivity|]); simpl; eauto 12.
Qed.

Local Opaque os_link copy2.

Lemma place_spec host_path target_path use_links w :
  exists success w',
    place host_path target_path use_links w = (Ok success, w') /\
    calls w' = calls w /\
    (exists l, effects w' = effects w ++ l /\
               placement_calls host_path target_path use_links l) /\
    placed host_path target_path success w w'.
Proof.
  unfold place, placement_calls, placed.
  unfold bind, try_except, ret, print, Exception.
  destruct use_links.
  - destruct (os_link_spec host_path target_path w)
      as (r & w1 & -> & He & Ho & Hc & Hr).
    destruct r as [[]|e].
    + destruct Hr as (rd & wr & data & Hsrc & Hfs).
      eexists _, _. split; [reflexivity|]. split; [exact Hc|].
      split; [exists [Link host_path target_path]; auto|].
      split; [exact Ho|]. exists rd, wr, data, target_path. auto.
    + destruct Hr as [Hfs Hos]. rewrite Hos.
      destruct (copy2_spec host_path target_path w1)
        as (r2 & w2 & -> & He2 & Ho2 & Hc2 & Hr2).
      assert (Heff : effects w2 = effects w ++
                [Link host_path target_path; Copy2 host_path target_path]).
      { rewrite He2, He, <- app_assoc. reflexivity. }
      destruct r2 as [[]|e2].
      * destruct Hr2 as (rd & wr & data & p & Hsrc & Hp & Hfs2).
        eexists _, _. split; [reflexivity|]. split; [congruence|].
        split; [eexists; split; [exact Heff|auto]|].
        split; [congruence|]. exists rd, wr, data, p.
        rewrite <- Hfs. auto.
      * eexists _, _. split; [reflexivity|]. simpl.
        split; [congruence|].
        split; [eexists; split; [exact Heff|auto]|].
        split; [congruence|]. exists e2. congruence.
  - destruct (copy2_spec host_path target_path w)
      as (r2 & w2 & -> & He2 & Ho2 & Hc2 & Hr2).
    destruct r2 as [[]|e2].
    + destruct Hr2 as (rd & wr & data & p & Hsrc & Hp & Hfs2).
      eexists _, _. split; [reflexivity|]. split; [exact Hc2|].
      split; [eexists; split; [exact He2|reflexivity]|].
      split; [exact Ho2|]. exists rd, wr, data, p. auto.
    + eexists _, _. split; [reflexivity|]. simpl.
      split; [exact Hc2|].
      split; [eexists; split; [exact He2|reflexivity]|].
      split; [exact Hr2|]. exists e2. congruence.
Qed.

Local Transparent os_link copy2.

(** [copy_asset] by cases: a source that does not resolve, a dry run, or
    the placement at the chosen target. *)
Lemma copy_asset_unfold a dvd_dir dry_run use_links w :
  copy_asset a dvd_dir dry_run use_links w =
    if resolves a w then
      if dry_run then (Ok true, w)
      else place (host_path_of (originalPath a)) (chosen_target a dvd_dir w)
                 use_links w
    else (Ok false, w).
Proof.
  unfold copy_asset, resolves, chosen_target.
  destruct (Py.startswith (originalPath a) CONTAINER_UPLOAD_PATH) eqn:Hp;
    [|reflexivity].
  rewrite <- (host_path_of_rewritten _ Hp). cbn [andb].
  unfold path_exists; unfold bind, get_fs, ret. cbv zeta.
  destruct (bool_decide (is_Some (fs w !! host_path_of (originalPath a))));
    cbn [negb]; [|reflexivity].
  destruct dry_run; reflexivity.
Qed.

(** X6. [copy_asset] answers [True] or [False] and never raises, whatever
    the file system holds: every error of the placement is caught. After
    [True] nothing was printed; after [False] the file system is as it
    was. It never enters a method of the tracker. *)
Theorem copy_asset_never_raises :
  forall (a : asset) (dvd_dir : string) (dry_run use_links : bool) (w : world),
    exists success w',
      copy_asset a dvd_dir dry_run use_links w = (Ok success, w') /\
      calls w' = calls w /\
      if success then stdout w' = stdout w else fs w' = fs w.
Proof.
  intros a dvd_dir dry_run use_links w. rewrite copy_asset_unfold.
  destruct (resolves a w); [|eexists _, _; split; [reflexivity|]; auto].
  destruct dry_run; [eexists _, _; split; [reflexivity|]; auto|].
  destruct (place_spec (host_path_of (originalPath a))
                       (chosen_target a dvd_dir w) use_links w)
    as (success & w' & -> & Hc & _ & Hp).
  exists success, w'. split; [reflexivity|]. split; [exact Hc|].
  unfold placed in Hp. destruct success; apply Hp.
Qed.

(** X7. The file-system calls of one [copy_asset]: none for a dry run or a
    source that does not resolve; otherwise one [copy2], or with
    [use_links] one [os.link], followed by one [copy2] only when the link
    did not succeed; all of them from the host path to the one target
    chosen at line 112-113. *)
Theorem copy_asset_placement_calls :
  forall (a : asset) (dvd_dir : string) (dry_run use_links : bool) (w : world),
    let w' := snd (copy_asset a dvd_dir dry_run use_links w) in
    if resolves a w && negb dry_run
    then exists l,
        effects w' = effects w ++ l /\
        placement_calls (host_path_of (originalPath a))
                        (chosen_target a dvd_dir w) use_links l
    else effects w' = effects w.
Proof.
  intros a dvd_dir dry_run use_links w. cbv zeta. rewrite copy_asset_unfold.
  destruct (resolves a w); [|reflexivity].
  destruct dry_run; [reflexivity|]. cbn [andb negb].
  destruct (place_spec (host_path_of (originalPath a))
                       (chosen_target a dvd_dir w) use_links w)
    as (success & w' & -> & _ & Hl & _).
  exact Hl.
Qed.



Local Opaque os_link copy2.

(** A step of a worker never raises, keeps the worker's asset, and moves
    an unfinished worker forward. *)
Lemma worker_step_ok dvd_dir dry_run use_links k w :
  exists k' w',
    worker_step dvd_dir dry_run use_links k w = (Ok k', w') /\
    worker_asset k' = worker_asset k /\
    ((rank k < 4)%nat -> (rank k < rank k')%nat) /\
    ((rank k = 4)%nat -> k' = k).
Proof.
  destruct k as [a|a h|a h t|a h t|a b]; cbn [worker_step].
  - destruct (Py.startswith (originalPath a) CONTAINER_UPLOAD_PATH).
    + unfold path_exists; unfold bind, get_fs, ret.
      destruct (bool_decide _); cbn [negb];
        eexists _, _; (split; [reflexivity|]); simpl;
        (split; [reflexivity|]); split; intros; lia.
    + eexists _, _. split; [reflexivity|]. simpl.
      split; [reflexivity|]. split; intros; lia.
  - unfold path_exists; unfold bind, get_fs, ret. cbv zeta.
    destruct dry_run; eexists _, _; (split; [reflexivity|]); simpl;
      (split; [reflexivity|]); split; intros; lia.
  - destruct use_links.
    + unfold bind, try_except, ret, print, Exception.
      destruct (os_link_spec h t w) as (r & w1 & -> & _ & _ & _ & Hr).
      destruct r as [[]|e].
      * eexists _, _. split; [reflexivity|]. simpl.
        split; [reflexivity|]. split; intros; lia.
      * destruct Hr as [_ ->].
        eexists _, _. split; [reflexivity|]. simpl.
        split; [reflexivity|]. split; intros; lia.
    + unfold bind, try_except, ret, print, Exception.
      destruct (copy2 h t w) as [[[]|e] w1];
        eexists _, _; (split; [reflexivity|]); simpl;
        (split; [reflexivity|]); split; intros; lia.
  - unfold bind, try_except, ret, print, Exception.
    destruct (copy2 h t w) as [[[]|e] w1];
      eexists _, _; (split; [reflexivity|]); simpl;
      (split; [reflexivity|]); split; intros; lia.
  - eexists _, _. split; [reflexivity|]. simpl.
    split; [reflexivity|]. split; [intros; lia|reflexivity].
Qed.

Local Transparent os_link copy2.

Lemma rank_4 k : (4 <= rank k)%nat -> exists b, k = Finished (worker_asset k) b.
Proof. destruct k; simpl; intros; try lia. eexists. reflexivity. Qed.

Lemma rank_le_4 k : (rank k <= 4)%nat.
Proof. destruct k; simpl; lia. Qed.

(** Four steps finish any worker. *)
Lemma worker_finish_ok dvd_dir dry_run use_links k w :
  exists b w',
    worker_finish dvd_dir dry_run use_links k w
      = (Ok (Finished (worker_asset k) b), w').
Proof.
  unfold worker_finish, bind.
  destruct (worker_step_ok dvd_dir dry_run use_links k w)
    as (k1 & w1 & -> & Ha1 & Hr1 & He1).
  destruct (worker_step_ok dvd_dir dry_run use_links k1 w1)
    as (k2 & w2 & -> & Ha2 & Hr2 & He2).
  destruct (worker_step_ok dvd_dir dry_run use_links k2 w2)
    as (k3 & w3 & -> & Ha3 & Hr3 & He3).
  destruct (worker_step_ok dvd_dir dry_run use_links k3 w3)
    as (k4 & w4 & -> & Ha4 & Hr4 & He4).
  assert (Hadv : forall x y : worker,
             ((rank x < 4)%nat -> (rank x < rank y)%nat) ->
             ((rank x = 4)%nat -> y = x) ->
             (Nat.min 4 (S (rank x)) <= rank y)%nat).
  { intros x y Hlt Heq. pose proof (rank_le_4 x).
    destruct (Nat.eq_dec (rank x) 4%nat) as [E|N].
    - rewrite (Heq E). lia.
    - specialize (Hlt ltac:(lia)). lia. }
  pose proof (Hadv _ _ Hr1 He1). pose proof (Hadv _ _ Hr2 He2).
  pose proof (Hadv _ _ Hr3 He3). pose proof (Hadv _ _ Hr4 He4).
  assert (H4 : (4 <= rank k4)%nat) by lia.
  destruct (rank_4 k4 H4) as (b & Hk4).
  assert (Hwa : worker_asset k4 = worker_asset k) by congruence.
  exists b, w4. rewrite Hk4, Hwa. reflexivity.
Qed.

Lemma run_schedule_ok dvd_dir dry_run use_links threads sched : forall ws w,
  exists ws' w',
    run_schedule dvd_dir dry_run use_links threads sched ws w = (Ok ws', w') /\
    map worker_asset ws' = map worker_asset ws.
Proof.
  induction sched as [|i rest IH]; intros ws w; cbn [run_schedule].
  - eexists _, _. split; reflexivity.
  - destruct (ws !! i) as [k|] eqn:Hi; [|apply IH].
    destruct (may_step threads ws i); [|apply IH].
    destruct (worker_step_ok dvd_dir dry_run use_links k w)
      as (k' & w1 & Hstep & Ha & _).
    unfold bind. rewrite Hstep.
    destruct (IH (<[i := k']> ws) w1) as (ws' & w' & -> & Hmap).
    eexists _, _. split; [reflexivity|]. rewrite Hmap.
    rewrite list_fmap_insert, Ha.
    apply list_insert_id. rewrite list_lookup_fmap, Hi. reflexivity.
Qed.

Lemma drain_ok dvd_dir dry_run use_links : forall ws w,
  exists ws' w',
    drain dvd_dir dry_run use_links ws w = (Ok ws', w') /\
    map worker_asset ws' = map worker_asset ws /\
    Forall (fun k => finished k = true) ws'.
Proof.
  induction ws as [|k rest IH]; intros w; cbn [drain].
  - eexists _, _. split; [reflexivity|]. split; [reflexivity|constructor].
  - destruct (worker_finish_ok dvd_dir dry_run use_links k w)
      as (b & w1 & Hfin).
    unfold bind. rewrite Hfin.
    destruct (IH w1) as (ws' & w' & -> & Hmap & Hall).
    eexists _, _. split; [reflexivity|]. simpl.
    split; [rewrite Hmap; reflexivity|]. constructor; [reflexivity|exact Hall].
Qed.

(** X9. The pool is a barrier: with a positive number of threads it
    returns, under every schedule and whatever the file system holds,
    one finished call for each member of the chunk, in submission order,
    and it never raises; with zero or fewer threads it raises
    [ValueError] before any call is started. *)
Theorem run_pool_finishes_every_call :
  forall (dvd_dir : string) (dry_run use_links : bool) (threads : Z)
         (sched : list nat) (dvd_assets : list asset) (w : world),
    if threads <=? 0
    then run_pool dvd_dir dry_run use_links threads sched dvd_assets w
           = (Raise ValueError, w)
    else exists ws w',
        run_pool dvd_dir dry_run use_links threads sched dvd_assets w
          = (Ok ws, w') /\
        map worker_asset ws = dvd_assets /\
        Forall (fun k => finished k = true) ws.
Proof.
  intros dvd_dir dry_run use_links threads sched dvd_assets w.
  unfold run_pool. destruct (threads <=? 0); [reflexivity|].
  destruct (run_schedule_ok dvd_dir dry_run use_links threads sched
              (map Queued dvd_assets) w) as (ws1 & w1 & Hrun & Hmap1).
  unfold bind. rewrite Hrun.
  destruct (drain_ok dvd_dir dry_run use_links ws1 w1)
    as (ws2 & w2 & -> & Hmap2 & Hall).
  exists ws2, w2. split; [reflexivity|]. split; [|exact Hall].
  rewrite Hmap2, Hmap1, map_map. simpl. apply map_id.
Qed.

End PlacementProperties.

(** ** More on file names *)

Section NameProperties.

Import Py.

Lemma ci_eq_refl s : ci_eq s s.
Proof. induction s; constructor; auto. Qed.

(** X10. The target file name always carries the source file's
    extension: whichever branch of line 109 is taken, the name ends with
    the extension, case ignored. *)
Theorem target_filename_has_extension :
  forall original_filename ext : string,
    ends_with_ci (target_filename original_filename ext) ext.
Proof.
  intros original_filename ext. unfold target_filename.
  destruct (endswith (lower original_filename) (lower ext)) eqn:He; simpl.
  - apply endswith_lower_iff. exact He.
  - exists original_filename, ext. split; [reflexivity|apply ci_eq_refl].
Qed.

(** *** [os.path.splitext] cuts a path in two *)

Lemma rfind_from_spec c s : forall i found,
  rfind_from c s i found = found \/
  (i <= rfind_from c s i found /\
   exists s', drop (Z.to_nat (rfind_from c s i found - i)) s = String c s').
Proof.
  induction s as [|x s IH]; intros i found; simpl; [left; reflexivity|].
  destruct (IH (i + 1) (if Ascii.eqb x c then i else found))
    as [Heq|(Hle & s' & Hs')].
  - rewrite Heq. destruct (Ascii.eqb_spec x c) as [->|Hne].
    + right. split; [lia|]. exists s. rewrite Z.sub_diag. reflexivity.
    + left. reflexivity.
  - right. split; [lia|]. exists s'.
    replace (Z.to_nat (rfind_from c s (i + 1)
                         (if Ascii.eqb x c then i else found) - i))
      with (S (Z.to_nat (rfind_from c s (i + 1)
                           (if Ascii.eqb x c then i else found) - (i + 1))))
      by lia.
    exact Hs'.
Qed.

Lemma rfind_spec c s :
  rfind c s = -1 \/
  (0 <= rfind c s /\ exists s', drop (Z.to_nat (rfind c s)) s = String c s').
Proof.
  unfold rfind. destruct (rfind_from_spec c s 0 (-1)) as [H|(Hle & s' & Hs')].
  - left. exact H.
  - right. split; [exact Hle|]. exists s'. rewrite Z.sub_0_r in Hs'. exact Hs'.
Qed.

Lemma splitext_loop_some fuel p : forall f d r,
  splitext_loop fuel p f d = Some r ->
  r = (take (Z.to_nat d) p, drop (Z.to_nat d) p).
Proof.
  induction fuel as [|fuel IH]; intros f d r; simpl; [discriminate|].
  destruct (f <? d); [|discriminate].
  destruct (negb _); [intros [= <-]; reflexivity|apply IH].
Qed.

(** The two parts of [splitext] make up the path, and the second is empty
    or starts with a dot. *)
Lemma splitext_spec p :
  fst (splitext p) +:+ snd (splitext p) = p /\
  (snd (splitext p) = EmptyString \/
   exists s, snd (splitext p) = String "." s).
Proof.
  unfold splitext.
  destruct (rfind "." p >? rfind "/" p) eqn:Hgt;
    [|simpl; split; [apply app_empty_r|left; reflexivity]].
  destruct (splitext_loop _ p _ _) as [r|] eqn:Hloop;
    [|simpl; split; [apply app_empty_r|left; reflexivity]].
  apply splitext_loop_some in Hloop. subst r. simpl.
  split; [apply take_drop_str|].
  right. destruct (rfind_spec "." p) as [Hm|(_ & s' & Hs')]; [|eauto].
  destruct (rfind_spec "/" p) as [Hs|(Hs & _)]; lia.
Qed.

Lemma append_inv_head p : forall a b, p +:+ a = p +:+ b -> a = b.
Proof.
  induction p as [|c p IH]; intros a b H; simpl in H; [exact H|].
  injection H as H. apply IH. exact H.
Qed.

Lemma join_inj d x y :
  startswith x "/" = startswith y "/" -> join d x = join d y -> x = y.
Proof.
  unfold join. intros ->. destruct (startswith y "/"); [auto|].
  destruct (_ || _); intros H; apply append_inv_head in H; [exact H|].
  simpl in H. injection H as H. exact H.
Qed.

Lemma startswith_head c s t p :
  startswith (String c s) (String p "") = startswith (String c t) (String p "").
Proof.
  unfold startswith. simpl. destruct (ascii_dec p c); [|reflexivity].
  destruct s, t; reflexivity.
Qed.

Lemma disambiguated_differs tf i ext :
  disambiguated tf i ext <> tf /\
  startswith (disambiguated tf i ext) "/" = startswith tf "/".
Proof.
  unfold disambiguated.
  destruct (splitext_spec tf) as [Hcut Hext].
  set (stem := fst (splitext tf)) in *. set (e := snd (splitext tf)) in *.
  split.
  - intros H. rewrite <- Hcut in H. apply append_inv_head in H.
    destruct Hext as [He|[s He]]; rewrite He in H; discriminate.
  - rewrite <- Hcut. destruct stem as [|c stem]; [|apply startswith_head].
    simpl. destruct Hext as [He|[s He]]; rewrite He; reflexivity.
Qed.

(** X11. The second-choice place of an asset is never its first-choice
    place: lines 110 and 113 build two different paths, whatever the
    names, the identifier and the staging directory are. *)
Theorem fallback_target_differs :
  forall (a : asset) (dvd_dir host_path : string),
    fallback_target a dvd_dir host_path <> initial_target a dvd_dir host_path.
Proof.
  intros a dvd_dir host_path. unfold fallback_target, initial_target.
  set (ext := snd (splitext host_path)).
  set (tf := target_filename (originalFileName a) ext).
  destruct (disambiguated_differs tf (id a) ext) as [Hne Hsw].
  intros H. apply Hne. eapply join_inj; eauto.
Qed.

End NameProperties.

(** ** The staging directory and the archive of a chunk *)

Section ChunkPaths.

Import Py.

Lemma process_dvd_paths E A d :
  process_dvd E A d =
  (do_ (if negb (dry_run A) then makedirs (dvd_dir_of A d) else ret tt);
   do_ run_pool (dvd_dir_of A d) (dry_run A) (use_links A) (threads A)
                (schedule E (Packer.d_num d)) (Packer.d_assets d);
   archive_step E (dry_run A) (dvd_dir_of A d) (iso_path_of A d)).
Proof. reflexivity. Qed.

Lemma join_relative a b :
  startswith b "/" = false -> join a b = joined_head a +:+ b.
Proof.
  unfold join, joined_head. intros ->.
  destruct (_ || _); [reflexivity|]. symmetry. apply app_assoc_str.
Qed.

Lemma prefix_app_head p : forall a b,
  String.prefix (p +:+ a) (p +:+ b) = String.prefix a b.
Proof.
  induction p as [|c p IH]; intros a b; [reflexivity|]. simpl.
  destruct (ascii_dec c c); [apply IH|congruence].
Qed.

Lemma eqb_app_head p : forall a b,
  String.eqb (p +:+ a) (p +:+ b) = String.eqb a b.
Proof.
  induction p as [|c p IH]; intros a b; [reflexivity|]. simpl.
  rewrite Ascii.eqb_refl. apply IH.
Qed.

Lemma under_joined a x y :
  startswith x "/" = false -> startswith y "/" = false ->
  under (join a x) (join a y) = under x y.
Proof.
  intros Hx Hy. rewrite (join_relative _ _ Hx), (join_relative _ _ Hy).
  unfold under, startswith.
  rewrite app_assoc_str, prefix_app_head, eqb_app_head. reflexivity.
Qed.

Lemma iso_not_under_dvd_dir A d d' :
  under (dvd_dir_of A d) (iso_path_of A d') = false.
Proof.
  unfold dvd_dir_of, iso_path_of. rewrite under_joined; reflexivity.
Qed.

(** X12. Removing the staging directory of a chunk removes no archive:
    the path of line 245 is never the directory of line 244 nor below
    it, for any two chunks and any backup directory, so the [rmtree] of
    line 269 leaves at every archive path what was there. *)
Theorem cleanup_keeps_archives :
  forall (A : args) (d d' : Packer.dvd) (w : world),
    under (dvd_dir_of A d) (iso_path_of A d') = false /\
    fs (snd (rmtree (dvd_dir_of A d) w)) !! iso_path_of A d'
    = fs w !! iso_path_of A d'.
Proof.
  intros A d d' w. pose proof (iso_not_under_dvd_dir A d d') as Hu.
  split; [exact Hu|].
  unfold rmtree. run.
  destruct (fs w !! dvd_dir_of A d) as [[|r wr data]|]; try reflexivity.
  simpl. rewrite map_lookup_filter.
  destruct (fs w !! iso_path_of A d') as [nd|]; simpl; [|reflexivity].
  rewrite option_guard_True; [reflexivity|]. exact Hu.
Qed.

End ChunkPaths.

(** ** The menu *)

Section Menu.

Import Py Packer PackerFacts.

(** *** [int] reads what [str] writes *)

Ltac by_digits u IH :=
  induction u as [|u IH|u IH|u IH|u IH|u IH|u IH|u IH|u IH|u IH|u IH];
  [reflexivity|..]; cbn [NilEmpty.string_of_uint].

Lemma lower_digits u :
  lower (NilEmpty.string_of_uint u) = NilEmpty.string_of_uint u.
Proof. by_digits u IH; cbn [lower]; rewrite IH; reflexivity. Qed.

Lemma rstrip_digits u :
  rstrip (NilEmpty.string_of_uint u) = NilEmpty.string_of_uint u.
Proof.
  by_digits u IH; cbn [rstrip]; rewrite IH;
    destruct (NilEmpty.string_of_uint u); reflexivity.
Qed.

Lemma lstrip_digits u :
  lstrip (NilEmpty.string_of_uint u) = NilEmpty.string_of_uint u.
Proof. destruct u; reflexivity. Qed.

Lemma int_digits_digits u :
  int_digits true (NilEmpty.string_of_uint u)
  = Some (NilEmpty.string_of_uint u).
Proof. by_digits u IH; cbn [int_digits]; simpl; rewrite IH; reflexivity. Qed.

Lemma int_digits_start u :
  u <> Nil ->
  int_digits false (NilEmpty.string_of_uint u)
  = Some (NilEmpty.string_of_uint u).
Proof.
  destruct u; [congruence|..]; intros _;
    cbn [NilEmpty.string_of_uint int_digits]; simpl;
    rewrite int_digits_digits; reflexivity.
Qed.

Lemma of_uint_to_uint p : Z.of_uint (Pos.to_uint p) = Z.pos p.
Proof.
  unfold Z.of_uint. rewrite DecimalPos.Unsigned.of_to. reflexivity.
Qed.

Lemma int_of_digits p :
  int_of_str (NilEmpty.string_of_uint (Pos.to_uint p)) = Some (Z.pos p) /\
  int_of_str (String "-" (NilEmpty.string_of_uint (Pos.to_uint p)))
  = Some (Z.neg p).
Proof.
  pose proof (DecimalPos.Unsigned.to_uint_nonnil p) as Hn.
  pose proof (int_digits_start _ Hn) as Hd.
  pose proof (NilEmpty.usu (Pos.to_uint p)) as Hu.
  pose proof (of_uint_to_uint p) as Hz.
  pose proof (rstrip_digits (Pos.to_uint p)) as Hr.
  destruct (to_uint_head p) as (c & s & Hs & Hc & _ & Hm).
  unfold int_of_str, strip. split.
  - rewrite lstrip_digits, Hr. rewrite Hs in *. rewrite Hm.
    assert (Hp : Ascii.eqb c "+" = false).
    { destruct (Ascii.eqb_spec c "+") as [->|]; [discriminate Hc|reflexivity]. }
    rewrite Hp. cbv beta iota. rewrite Hd, Hu, Hz. reflexivity.
  - cbn [lstrip]. change (is_space "-") with false. cbv beta iota.
    cbn [rstrip]. rewrite Hr. rewrite Hs at 1. cbv beta iota.
    rewrite Ascii.eqb_refl. cbv beta iota. rewrite <- Hs, Hd, Hu, Hz. reflexivity.
Qed.

(** [int(str(n))] is [n]. *)
Lemma int_of_str_of_Z n : int_of_str (str_of_Z n) = Some n.
Proof.
  destruct n as [|p|p]; [reflexivity|..].
  - rewrite str_of_Z_pos. apply int_of_digits.
  - rewrite str_of_Z_neg. apply int_of_digits.
Qed.

(** The text of a positive number is left alone by [strip] and [lower],
    and is neither of the two words of the menu. *)
Lemma str_of_Z_choice p :
  lower (strip (str_of_Z (Z.pos p))) = str_of_Z (Z.pos p) /\
  String.eqb (str_of_Z (Z.pos p)) "q" = false /\
  String.eqb (str_of_Z (Z.pos p)) "all" = false.
Proof.
  rewrite str_of_Z_pos. unfold strip.
  rewrite lstrip_digits, rstrip_digits, lower_digits.
  split; [reflexivity|].
  destruct (to_uint_head p) as (c & s & -> & Hc & _).
  split; simpl.
  - destruct (Ascii.eqb_spec c "q") as [->|]; [discriminate Hc|reflexivity].
  - destruct (Ascii.eqb_spec c "a") as [->|]; [discriminate Hc|reflexivity].
Qed.

Lemma ordinals_lookup n i :
  (i < n)%nat -> ordinals n !! i = Some (Z.of_nat i + 1).
Proof.
  intros Hi. unfold ordinals. rewrite list_lookup_fmap.
  rewrite lookup_seq_lt by exact Hi. reflexivity.
Qed.


(** X14. Typing the number that the menu shows for a chunk selects that
    chunk and only that one: for every chunk that the packing loop
    produced, the answer made of its ordinal passes the [strip] and
    [lower] of line 222 unchanged, is read back by [int] and indexes the
    chunk itself. *)
Theorem select_by_ordinal :
  forall (assets : list asset) (capacity : Z) (dvds : list dvd)
         (i : nat) (d : dvd) (w : world),
    organize assets capacity = Some dvds ->
    dvds !! i = Some d ->
    select dvds (lower (strip (str_of_Z (d_num d)))) w = (Ok (Some [d]), w).
Proof.
  intros assets capacity dvds i d w Horg Hd.
  destruct (organize_sealed assets capacity dvds Horg) as (Hnum & _).
  assert (Hi : (i < length dvds)%nat) by (eapply lookup_lt_Some; exact Hd).
  assert (Hn : d_num d = Z.of_nat i + 1).
  { pose proof (ordinals_lookup (length dvds) i Hi) as Ho.
    rewrite <- Hnum, list_lookup_fmap, Hd in Ho. simpl in Ho.
    injection Ho as Ho. exact Ho. }
  assert (Hp : exists p, d_num d = Z.pos p).
  { exists (Pos.of_succ_nat i). rewrite Hn. lia. }
  destruct Hp as [p Hp].
  destruct (str_of_Z_choice p) as (Hs & Hq & Hall).
  rewrite Hp, Hs. unfold select. rewrite Hq, Hall, int_of_str_of_Z.
  rewrite <- Hp, Hn.
  replace (Z.of_nat i + 1 - 1) with (Z.of_nat i) by lia.
  rewrite Nat2Z.id, Hd.
  replace ((0 <=? Z.of_nat i) && (Z.of_nat i <? Z.of_nat (length dvds)))
    with true; [reflexivity|].
  symmetry. apply andb_true_intro. split; [apply Z.leb_le|apply Z.ltb_lt]; lia.
Qed.

Lemma select_by_ordinal_witness :
  exists dvds d,
    organize (map sized [3000; 3000; 3000]) 5000 = Some dvds /\
    dvds !! 1%nat = Some d /\
    select dvds (lower (strip (str_of_Z (d_num d)))) demo_world
    = (Ok (Some [d]), demo_world).
Proof.
  eexists _, _. split; [vm_compute; reflexivity|].
  split; [reflexivity|].
  apply (select_by_ordinal (map sized [3000; 3000; 3000]) 5000 _ 1%nat);
    [vm_compute; reflexivity|reflexivity].
Defined.

End Menu.

(** ** The whole run *)

Section WholeRun.

Variable E : env.
Variable A : args.

(** *** Computations that leave the file system alone *)

Lemma still_same {X} S (m : M X) :
  (forall w, snd (m w) = w) -> still S m.
Proof.
  intros H w. rewrite H. split; [reflexivity|].
  exists []. rewrite app_nil_r. split; [reflexivity|constructor].
Qed.

Lemma still_logs {X} S (m : M X) :
  (forall w, fs (snd (m w)) = fs w /\ effects (snd (m w)) = effects w) ->
  still S m.
Proof.
  intros H w. destruct (H w) as [Hf He]. split; [exact Hf|].
  exists []. rewrite app_nil_r. split; [exact He|constructor].
Qed.

Lemma still_ret {X} S (x : X) : still S (ret x).
Proof. apply still_same. reflexivity. Qed.

Lemma still_raise {X} S e : still S (@raise X e).
Proof. apply still_same. reflexivity. Qed.

Lemma still_print S line : still S (print line).
Proof. apply still_logs. intros w. split; reflexivity. Qed.

Lemma still_bind {X Y} S (m : M X) (k : X -> M Y) :
  still S m -> (forall x, still S (k x)) -> still S (bind m k).
Proof.
  intros Hm Hk w. unfold bind. specialize (Hm w).
  destruct (m w) as [[x|e] w1]; simpl in Hm; [|exact Hm].
  destruct Hm as (Hf & l & He & Hl).
  destruct (Hk x w1) as (Hf' & l' & He' & Hl').
  split; [congruence|]. exists (l ++ l'). split.
  - rewrite He', He, app_assoc. reflexivity.
  - apply Forall_app. split; assumption.
Qed.

Lemma still_init path : still (preparation A) (Tracker.init path).
Proof.
  apply still_logs. intros w. rewrite init_eq.
  destruct (fs w !! path); [|split; reflexivity].
  destruct (Tracker.read_state (fs w) path); split; reflexivity.
Qed.

Lemma still_get_assets_from_db : still (preparation A) (get_assets_from_db E).
Proof.
  intros w. unfold get_assets_from_db, run_command, subprocess_run. run.
  destruct (proc E db_cmd) as [out|]; simpl.
  - destruct (String.eqb (Py.strip out) ""); [|destruct (db_rows E)]; simpl;
      (split; [reflexivity|]); exists [Run db_cmd];
      (split; [reflexivity|]); (constructor; [right; reflexivity|constructor]).
  - split; [reflexivity|]. exists [Run db_cmd].
    split; [reflexivity|]. constructor; [right; reflexivity|constructor].
Qed.

Lemma still_select all_dvds choice :
  still (preparation A) (select all_dvds choice).
Proof.
  apply still_logs. intros w. unfold select.
  destruct (String.eqb choice "q"); [split; reflexivity|].
  destruct (String.eqb choice "all"); [split; reflexivity|].
  destruct (Py.int_of_str choice) as [n|]; [|split; reflexivity].
  destruct (_ && _); [|split; reflexivity].
  destruct (all_dvds !! Z.to_nat (n - 1)); split; reflexivity.
Qed.

Lemma run_pool_dry_same dvd_dir use_links threads sched assets w :
  snd (run_pool dvd_dir true use_links threads sched assets w) = w.
Proof.
  destruct (threads <=? 0) eqn:Ht.
  - unfold run_pool. rewrite Ht. reflexivity.
  - apply Z.leb_gt in Ht. rewrite run_pool_dry_run by exact Ht. reflexivity.
Qed.

Lemma still_process_dvd d :
  dry_run A = true -> still (preparation A) (process_dvd E A d).
Proof.
  intros Hdry. rewrite process_dvd_paths. unfold archive_step.
  rewrite Hdry. simpl.
  apply still_bind; [apply still_ret|intros _].
  apply still_bind; [|intros _; apply still_ret].
  apply still_same. apply run_pool_dry_same.
Qed.

Lemma still_for_each {X} S (body : X -> M unit) l :
  (forall x, still S (body x)) -> still S (for_each body l).
Proof.
  intros Hb. induction l as [|x l IH]; simpl; [apply still_ret|].
  apply still_bind; [apply Hb|intros _; exact IH].
Qed.

(** What follows the [makedirs] of line 164 in a dry run. *)
Lemma still_main_rest :
  dry_run A = true ->
  still (preparation A)
    (do state <- Tracker.init (arg_state_file A);
     do assets <- get_assets_from_db E;
     if negb (Packer.truthy assets) then print "No assets found in database."
     else
       do all_dvds <-
         match Packer.organize assets (capacity A) with
         | Some l => ret l
         | None => raise IndexError
         end;
       let choice := Py.lower (Py.strip (user_input E)) in
       do to_process <- select all_dvds choice;
       match to_process with
       | None => ret tt
       | Some l =>
           do_ for_each (process_dvd E A) l;
           print (String "010" "Process completed.")
       end).
Proof.
  intros Hdry.
  apply still_bind; [apply still_init|intros state].
  apply still_bind; [apply still_get_assets_from_db|intros assets].
  destruct (negb (Packer.truthy assets)); [apply still_print|].
  apply still_bind.
  { destruct (Packer.organize assets (capacity A));
      [apply still_ret|apply still_raise]. }
  intros all_dvds. cbv zeta.
  apply still_bind; [apply still_select|intros [l|]]; [|apply still_ret].
  apply still_bind; [|intros _; apply still_print].
  apply still_for_each. intros d. apply still_process_dvd. exact Hdry.
Qed.

Lemma makedirs_effects p w :
  effects (snd (makedirs p w)) = effects w ++ [Makedirs p].
Proof.
  unfold makedirs. run.
  destruct (makedirs_fs (String.length p) p (fs w)); reflexivity.
Qed.

End WholeRun.

(** X15. A dry run changes nothing beyond the backup directory: with
    [--dry-run] the file system at the end of [main] is the one that the
    [makedirs] of line 164 left, whatever the inventory, the answer at
    the menu, the number of threads and the schedule are; and the run
    makes no file-system or process call but that [makedirs] and the
    inventory query: no staging directory, no link, no copy, no archive
    tool, no removal. *)
Theorem main_dry_run_changes_nothing :
  forall (E : env) (A : args) (w : world),
    dry_run A = true ->
    let w' := snd (main E A w) in
    fs w' = fs (snd (makedirs (backup_dir A) w)) /\
    exists l, effects w' = effects w ++ l /\ Forall (preparation A) l.
Proof.
  intros E A w Hdry. pose proof (still_main_rest E A Hdry) as Hrest.
  pose proof (makedirs_effects (backup_dir A) w) as Hmk.
  intros w'. subst w'. unfold main.
  match goal with
  | |- context [bind (makedirs _) ?k] => set (rest := k)
  end.
  unfold bind.
  destruct (makedirs (backup_dir A) w) as [[[]|e] w1]; simpl in Hmk |- *.
  - destruct (Hrest w1) as (Hf & l & He & Hl).
    split; [exact Hf|]. exists (Makedirs (backup_dir A) :: l). split.
    + transitivity (effects w1 ++ l); [exact He|].
      rewrite Hmk, <- app_assoc. reflexivity.
    + constructor; [left; reflexivity|exact Hl].
  - split; [reflexivity|]. exists [Makedirs (backup_dir A)].
    split; [exact Hmk|]. constructor; [left; reflexivity|constructor].
Qed.

Lemma main_dry_run_changes_nothing_witness :
  dry_run dry_args = true /\
  fs (snd (main demo_env dry_args demo_world))
  = fs (snd (makedirs (backup_dir dry_args) demo_world)).
Proof.
  split; [reflexivity|].
  destruct (main_dry_run_changes_nothing demo_env dry_args demo_world eq_refl)
    as [H _].
  exact H.
Defined.

Section Inventory.

Variable E : env.

Lemma get_assets_from_db_fails w :
  proc E db_cmd = None ->
  get_assets_from_db E w =
    (Raise CalledProcessError,
     with_line (stderr_line E db_cmd)
       (with_line (command_error_line db_cmd)
          (with_effect (Run db_cmd) (with_line fetching_line w)))).
Proof.
  intros Hp. unfold get_assets_from_db, run_command, subprocess_run. run.
  rewrite Hp. reflexivity.
Qed.

Lemma get_assets_from_db_empty out w :
  proc E db_cmd = Some out ->
  Py.strip out = "" \/ db_rows E = Ok [] ->
  get_assets_from_db E w =
    (Ok [], with_effect (Run db_cmd) (with_line fetching_line w)).
Proof.
  intros Hp Hrows. unfold get_assets_from_db, run_command, subprocess_run.
  run. rewrite Hp. simpl.
  destruct (String.eqb_spec (Py.strip out) "") as [_|Hne]; [reflexivity|].
  destruct Hrows as [H|H]; [contradiction|]. rewrite H. reflexivity.
Qed.

(** The tracker's constructor adds to the world one entry in the log of
    method calls and at most one line. *)
Lemma init_world path w :
  exists self pre,
    Tracker.init path w
    = (Ok self,
       {| fs := fs w; effects := effects w; calls := calls w ++ [Mload];
          stdout := stdout w ++ pre |}).
Proof.
  rewrite init_eq. destruct (fs w !! path).
  - destruct (Tracker.read_state (fs w) path) as [s|e].
    + exists s, []. unfold with_call. simpl. rewrite app_nil_r. reflexivity.
    + exists (Tracker.fresh path), [Tracker.warning e]. reflexivity.
  - exists (Tracker.fresh path), []. unfold with_call. simpl.
    rewrite app_nil_r. reflexivity.
Qed.

End Inventory.

Lemma makedirs_world p w :
  exists f',
    snd (makedirs p w)
    = {| fs := f'; effects := effects w ++ [Makedirs p];
         calls := calls w; stdout := stdout w |}.
Proof.
  unfold makedirs. run.
  destruct (makedirs_fs (String.length p) p (fs w)) as [f'|e];
    eexists; reflexivity.
Qed.

(** X16. When the inventory query fails, the run ends there with an
    exception: [main] raises, after the [makedirs] of line 164 and at
    most the query itself; no chunk is staged and no archive tool is
    started. When the backup directory could be made, the exception is
    the [CalledProcessError] that [run_command] re-raises after its two
    lines on the console. *)
Theorem main_stops_when_query_fails :
  forall (E : env) (A : args) (w : world),
    proc E db_cmd = None ->
    exists e w',
      main E A w = (Raise e, w') /\
      (effects w' = effects w ++ [Makedirs (backup_dir A)] \/
       e = CalledProcessError /\
       effects w' = effects w ++ [Makedirs (backup_dir A); Run db_cmd] /\
       calls w' = calls w ++ [Mload] /\
       exists pre,
         stdout w' = stdout w ++ pre ++
           [fetching_line; command_error_line db_cmd; stderr_line E db_cmd]).
Proof.
  intros E A w Hp.
  destruct (makedirs_world (backup_dir A) w) as [f1 Hw1].
  unfold main.
  match goal with
  | |- context [bind (makedirs _) ?k] => set (rest := k)
  end.
  unfold bind.
  destruct (makedirs (backup_dir A) w) as [[[]|e] w1]; simpl in Hw1; subst w1.
  - exists CalledProcessError. unfold rest, bind.
    destruct (init_world (arg_state_file A)
                {| fs := f1; effects := effects w ++ [Makedirs (backup_dir A)];
                   calls := calls w; stdout := stdout w |})
      as (self & pre & ->).
    rewrite get_assets_from_db_fails by exact Hp.
    eexists. split; [reflexivity|]. right. simpl.
    split; [reflexivity|]. split; [rewrite <- app_assoc; reflexivity|].
    split; [reflexivity|]. exists pre.
    rewrite <- !app_assoc. reflexivity.
  - eexists e, _. split; [reflexivity|]. left. reflexivity.
Qed.

Lemma main_stops_when_query_fails_witness :
  exists w',
    main down_env demo_args demo_world = (Raise CalledProcessError, w') /\
    effects w' = [Makedirs DEFAULT_BACKUP_DIR; Run db_cmd].
Proof.
  destruct (main_stops_when_query_fails down_env demo_args demo_world eq_refl)
    as (e & w' & Hmain & _).
  exists w'. vm_compute in Hmain. injection Hmain as <- <-.
  split; reflexivity.
Defined.

(** X17. With an empty inventory the run stops before the packing loop:
    when the backup directory can be made and the query prints nothing
    but white space, or rows that decode to the empty list, [main]
    returns normally, its last line on the console is the one of line
    169, and it has made no call but the [makedirs] of line 164 and the
    query. *)
Theorem main_stops_on_empty_inventory :
  forall (E : env) (A : args) (out : string) (w w1 : world),
    makedirs (backup_dir A) w = (Ok tt, w1) ->
    proc E db_cmd = Some out ->
    Py.strip out = "" \/ db_rows E = Ok [] ->
    exists w',
      main E A w = (Ok tt, w') /\
      fs w' = fs w1 /\
      effects w' = effects w ++ [Makedirs (backup_dir A); Run db_cmd] /\
      calls w' = calls w ++ [Mload] /\
      exists pre,
        stdout w' = stdout w ++ pre ++
          [fetching_line; "No assets found in database."].
Proof.
  intros E A out w w1 Hmk Hp Hrows.
  destruct (makedirs_world (backup_dir A) w) as [f1 Hw1].
  rewrite Hmk in Hw1. simpl in Hw1. subst w1.
  unfold main.
  match goal with
  | |- context [bind (makedirs _) ?k] => set (rest := k)
  end.
  unfold bind. rewrite Hmk. unfold rest, bind.
  destruct (init_world (arg_state_file A)
              {| fs := f1; effects := effects w ++ [Makedirs (backup_dir A)];
                 calls := calls w; stdout := stdout w |})
    as (self & pre & ->).
  rewrite (get_assets_from_db_empty E out) by assumption.
  eexists. split; [reflexivity|]. simpl.
  split; [reflexivity|]. split; [rewrite <- app_assoc; reflexivity|].
  split; [reflexivity|]. exists pre.
  rewrite <- !app_assoc. reflexivity.
Qed.

Lemma main_stops_on_empty_inventory_witness :
  exists w',
    main empty_env demo_args demo_world = (Ok tt, w') /\
    effects w' = [Makedirs DEFAULT_BACKUP_DIR; Run db_cmd].
Proof.
  destruct (main_stops_on_empty_inventory empty_env demo_args
              (String "010" EmptyString) demo_world
              (snd (makedirs DEFAULT_BACKUP_DIR demo_world)))
    as (w' & Hmain & _ & Heff & _);
    [vm_compute; reflexivity|reflexivity|left; reflexivity|].
  exists w'. split; [exact Hmain|exact Heff].
Defined.

(** ** The tracker's file and the archive *)


Section ArchiveSurvives.

Variable E : env.

Lemma try_tools_writes iso_path tools : forall w w',
  Forall (fun cmd => output_arg cmd = Some iso_path) tools ->
  try_tools E iso_path tools w = (Ok true, w') ->
  exists cmd,
    cmd ∈ tools /\
    fs w' !! iso_path = Some (File true true (proc_output E cmd)).
Proof.
  induction tools as [|cmd rest IH]; intros w w' Hout Htry.
  - simpl in Htry. revert Htry. run. discriminate.
  - apply Forall_cons in Hout as [Hcmd Hrest].
    cbn [try_tools] in Htry.
    destruct (which E (program cmd)).
    + revert Htry. unfold bind at 1. unfold try_except. unfold bind at 1.
      destruct (proc E cmd) as [out|] eqn:Hp.
      * destruct (run_command_succeeds E cmd out w Hp)
          as (w1 & -> & Hfs & _).
        rewrite Hcmd in Hfs. run. intros [= <-]. exists cmd.
        split; [apply list_elem_of_here|].
        simpl. rewrite Hfs. apply lookup_insert_eq.
      * destruct (run_command_fails E cmd w Hp) as (w1 & -> & _).
        run. intros Htry. destruct (IH _ _ Hrest Htry) as (c & Hc & Hl).
        exists c. split; [apply list_elem_of_further; exact Hc|exact Hl].
    + destruct (IH _ _ Hrest Htry) as (c & Hc & Hl).
      exists c. split; [apply list_elem_of_further; exact Hc|exact Hl].
Qed.

End ArchiveSurvives.

Lemma rmtree_keeps_outside dir p w :
  under dir p = false -> fs (snd (rmtree dir w)) !! p = fs w !! p.
Proof.
  intros Hu. unfold rmtree. run.
  destruct (fs w !! dir) as [[|r wr data]|]; try reflexivity.
  simpl. rewrite map_lookup_filter.
  destruct (fs w !! p) as [nd|]; simpl; [|reflexivity].
  rewrite option_guard_True; [reflexivity|]. exact Hu.
Qed.

Lemma iso_tools_output source_dir iso_path :
  Forall (fun cmd => output_arg cmd = Some iso_path)
         (iso_tools source_dir iso_path).
Proof. repeat constructor. Qed.

(** X19. A chunk that was archived keeps its archive through the
    cleanup: when [create_iso] answers [True] for a chunk's staging
    directory and archive path, then after lines 266-269, whether the
    [rmtree] succeeds or raises, the archive path holds the file that
    one of the three candidate commands wrote. *)
Theorem archived_chunk_keeps_its_archive :
  forall (E : env) (A : args) (d : Packer.dvd) (w w1 : world),
    create_iso E (dvd_dir_of A d) (iso_path_of A d) w = (Ok true, w1) ->
    exists cmd,
      cmd ∈ iso_tools (dvd_dir_of A d) (iso_path_of A d) /\
      fs (snd (archive_step E false (dvd_dir_of A d) (iso_path_of A d) w))
        !! iso_path_of A d
      = Some (File true true (proc_output E cmd)).
Proof.
  intros E A d w w1 Hiso.
  assert (Hstep : snd (archive_step E false (dvd_dir_of A d) (iso_path_of A d) w)
                  = snd (rmtree (dvd_dir_of A d)
                           (with_line ("Cleaning up temporary directory "
                                       +:+ dvd_dir_of A d +:+ "...") w1))).
  { unfold archive_step. cbn [negb]. unfold bind at 1. rewrite Hiso.
    reflexivity. }
  rewrite Hstep, rmtree_keeps_outside by apply iso_not_under_dvd_dir.
  unfold create_iso in Hiso. unfold bind at 1 in Hiso. unfold print in Hiso.
  destruct (try_tools_writes E _ _ _ _ (iso_tools_output _ _) Hiso)
    as (cmd & Hin & Hfile).
  exists cmd. split; [exact Hin|exact Hfile].
Qed.

Lemma archived_chunk_keeps_its_archive_witness :
  exists cmd,
    fs (snd (archive_step demo_env false (dvd_dir_of demo_args demo_dvd)
               (iso_path_of demo_args demo_dvd) demo_world))
      !! iso_path_of demo_args demo_dvd
    = Some (File true true (proc_output demo_env cmd)).
Proof.
  destruct (archived_chunk_keeps_its_archive demo_env demo_args demo_dvd
              demo_world
              (snd (create_iso demo_env (dvd_dir_of demo_args demo_dvd)
                      (iso_path_of demo_args demo_dvd) demo_world)))
    as (cmd & _ & Hfile); [vm_compute; reflexivity|].
  exists cmd. exact Hfile.
Defined.

(** ** The calls of a whole run *)

Section Footprint.

Context {X Y : Type}.
Variable S : effect -> Prop.






Lemma emits_post (P Q : X -> Prop) (m : M X) :
  (forall x, P x -> Q x) -> emits S P m -> emits S Q m.
Proof.
  intros Hpq Hm w. destruct (Hm w) as [He Hp]. split; [exact He|].
  destruct (fst (m w)); [apply Hpq; exact Hp|exact I].
Qed.

End Footprint.

Section FootprintCalls.

Variable S : effect -> Prop.












End FootprintCalls.

Section FootprintOfChunk.

Variable E : env.
Variable A : args.
Variable d : Packer.dvd.

Let dir := dvd_dir_of A d.









End FootprintOfChunk.

Section FootprintOfRun.

Variable E : env.
Variable A : args.



End FootprintOfRun.

